(** * rscraper: the normalization engine (normalize.py, amenities.py)

    A shallow embedding of the listing normalizer of the real-estate
    scraper: text sanitizing and amenity matching ([amenities.py]), value
    coercion, recursive key search, the field extractors and the row
    assembler ([normalize.py]), with the properties of its specification
    stated and proved against the embedding.

    Conventions of the embedding.
    - Python [str] is [string]; a character is read as the code point of
      the same number, so the model covers text in U+0000..U+00FF, and the
      character classes below are those of Python's Unicode database on
      that range.
    - Python [float] is an IEEE 754 binary64 value, [spec_float] at
      precision 53 and maximal exponent 1024, with round-to-nearest-even.
    - Python [None] is the constructor [PNone] of the value type, exactly as
      the code uses one object for JSON null and for the absence of a match.
    - A [dict] whose iteration order matters is an association list in
      insertion order; the fallbacks mapping, which is only looked up, is a
      [gmap]; the reverse amenity index is a [gmap]; the set of found labels
      is a [gset].
    - An exception is the [Raise] branch of the [result] type. *)

From Stdlib Require Import ZArith NArith Bool List Ascii String Lia.
From Stdlib Require Import Sorting.Sorted Floats.SpecFloat.
From stdpp Require Import base option list strings gmap sorting.

Local Open Scope string_scope.

(** ** Characters and text *)

Definition code (c : ascii) : N := N_of_ascii c.

Definition in_range (lo hi : N) (c : ascii) : bool :=
  ((lo <=? code c) && (code c <=? hi))%N.

(** [\w] of [re] on [str] patterns: alphanumeric characters and the
    underscore. *)
Definition is_word (c : ascii) : bool :=
  in_range 48 57 c || in_range 65 90 c || (code c =? 95)%N
  || in_range 97 122 c || (code c =? 170)%N || in_range 178 179 c
  || (code c =? 181)%N || in_range 185 186 c || in_range 188 190 c
  || in_range 192 214 c || in_range 216 246 c || in_range 248 255 c.

(** [\s] of [re], which is also the set [str.strip] removes. *)
Definition is_space (c : ascii) : bool :=
  in_range 9 13 c || in_range 28 32 c || (code c =? 133)%N
  || (code c =? 160)%N.

(** The class [[0-9.\-]] kept by [parse_float]. *)
Definition is_digit (c : ascii) : bool := in_range 48 57 c.

Definition is_numeric_char (c : ascii) : bool :=
  is_digit c || (code c =? 46)%N || (code c =? 45)%N.

Definition has_upper (c : ascii) : bool :=
  in_range 65 90 c || in_range 192 214 c || in_range 216 222 c.

Definition lower_char (c : ascii) : ascii :=
  if has_upper c then ascii_of_N (code c + 32) else c.

Fixpoint str_map (f : ascii -> ascii) (s : string) : string :=
  match s with
  | EmptyString => EmptyString
  | String c s' => String (f c) (str_map f s')
  end.

Fixpoint str_filter (p : ascii -> bool) (s : string) : string :=
  match s with
  | EmptyString => EmptyString
  | String c s' => if p c then String c (str_filter p s') else str_filter p s'
  end.

(** [s.lower()] *)
Definition py_lower (s : string) : string := str_map lower_char s.

(** [s.replace(c, "")] for a one-character [c]. *)
Definition remove_char (x : ascii) (s : string) : string :=
  str_filter (fun c => negb (Ascii.eqb c x)) s.

Definition is_empty (s : string) : bool :=
  match s with EmptyString => true | _ => false end.

(** [s.lstrip()], [s.rstrip()], [s.strip()] *)
Fixpoint lstrip (s : string) : string :=
  match s with
  | EmptyString => EmptyString
  | String c s' => if is_space c then lstrip s' else s
  end.

Fixpoint rstrip (s : string) : string :=
  match s with
  | EmptyString => EmptyString
  | String c s' =>
      let r := rstrip s' in
      if is_space c && is_empty r then EmptyString else String c r
  end.

Definition strip (s : string) : string := rstrip (lstrip s).

(** [needle in hay] *)
Fixpoint starts_with (p s : string) : bool :=
  match p with
  | EmptyString => true
  | String a p' =>
      match s with
      | EmptyString => false
      | String b s' => Ascii.eqb a b && starts_with p' s'
      end
  end.

Fixpoint contains (needle hay : string) : bool :=
  starts_with needle hay
  || match hay with
     | EmptyString => false
     | String _ hay' => contains needle hay'
     end.

(** [re.split(r"[;,\n]", s)] *)
Definition is_sep (c : ascii) : bool :=
  (code c =? 59)%N || (code c =? 44)%N || (code c =? 10)%N.

Fixpoint re_split (s : string) : list string :=
  match s with
  | EmptyString => [EmptyString]
  | String c s' =>
      let r := re_split s' in
      if is_sep c then EmptyString :: r
      else match r with
           | h :: t => String c h :: t
           | [] => [String c EmptyString]
           end
  end.

(** The loop shared by [collect_raw_amenities]: split, strip each part,
    keep the non-empty ones. *)
Definition split_tokens (s : string) : list string :=
  List.filter (fun p => negb (is_empty p)) (List.map strip (re_split s)).

(** ** amenities.py: [_sanitize] *)

(** [re.sub(r"[^\w\s]", " ", t)] *)
Definition blank_char (c : ascii) : ascii :=
  if is_word c || is_space c then c else " "%char.

Definition sub_nonword (t : string) : string := str_map blank_char t.

(** [re.sub(r"\s+", " ", t)]: every maximal run of whitespace becomes one
    space; [in_run] records that the previous character was whitespace. *)
Fixpoint collapse_ws (in_run : bool) (t : string) : string :=
  match t with
  | EmptyString => EmptyString
  | String c t' =>
      if is_space c then
        if in_run then collapse_ws true t'
        else String " "%char (collapse_ws true t')
      else String c (collapse_ws false t')
  end.

Definition sub_spaces (t : string) : string := collapse_ws false t.

Definition _sanitize (text : string) : string :=
  let text := sub_nonword (py_lower text) in
  strip (sub_spaces text).

(** ** Exceptions *)

(** The exceptions the numeric built-ins used by [normalize.py] can
    raise. *)
Inductive exn : Set := ValueError | OverflowError | ZeroDivisionError.

Inductive result (A : Type) : Type :=
| Ok (a : A)
| Raise (e : exn).
Arguments Ok {A} a.
Arguments Raise {A} e.

Definition bind {A B : Type} (r : result A) (k : A -> result B) : result B :=
  match r with
  | Ok a => k a
  | Raise e => Raise e
  end.

Notation "x <- r ;; k" := (bind r (fun x => k))
  (at level 100, r at next level, right associativity).

(** ** Python numbers *)

Abbreviation float := spec_float.

Definition prec : Z := 53.
Definition emax : Z := 1024.

(** The double nearest to an integer (ties to even); an infinity when the
    integer is beyond the range. *)
Definition float_of_Z (z : Z) : float := binary_normalize prec emax z 0 false.

Definition float_mul (x y : float) : float := SFmul prec emax x y.
Definition float_div (x y : float) : float := SFdiv prec emax x y.

(** The double nearest to the quotient of two positive integers, signed. *)
Definition float_quot (neg : bool) (p q : positive) : float :=
  float_div (S754_finite neg p 0) (S754_finite false q 0).

(** The double nearest to [m / 10^k]: the value of the decimal literal
    with digits [m], [k] of them after the point. *)
Definition float_of_decimal (neg : bool) (m : Z) (k : nat) : float :=
  match m with
  | Zpos p => float_quot neg p (Z.to_pos (10 ^ Z.of_nat k))
  | _ => S754_zero neg
  end.

Definition overflow_check (f : float) : result float :=
  match f with
  | S754_infinity _ => Raise OverflowError
  | _ => Ok f
  end.

(** [float(n)] for an [int]: raises [OverflowError] beyond the range. *)
Definition py_float_of_int (z : Z) : result float :=
  overflow_check (float_of_Z z).

(** [int(x)] for a [float]: truncates toward zero; raises on NaN and on
    the infinities. *)
Definition py_int_of_float (f : float) : result Z :=
  match f with
  | S754_nan => Raise ValueError
  | S754_infinity _ => Raise OverflowError
  | S754_zero _ => Ok 0%Z
  | S754_finite s m e =>
      let a := Z.shiftl (Zpos m) e in
      Ok (if s then Z.opp a else a)
  end.

(** [x * n] for a [float] and an [int]: the int is converted first. *)
Definition py_float_mul_int (x : float) (n : Z) : result float :=
  y <- py_float_of_int n ;; Ok (float_mul x y).

(** [a / b] for two [int]s: the correctly rounded quotient. *)
Definition py_int_truediv (a b : Z) : result float :=
  match b, a with
  | Z0, _ => Raise ZeroDivisionError
  | _, Z0 => Ok (S754_zero (b <? 0)%Z)
  | Zpos q, Zpos p | Zneg q, Zneg p => overflow_check (float_quot false p q)
  | Zpos q, Zneg p | Zneg q, Zpos p => overflow_check (float_quot true p q)
  end.

(** [float(s)] for text over the alphabet [0-9 . -], the only text
    [parse_float] passes to it: an optional minus sign, then digits with at
    most one point and at least one digit. *)
Definition digit_value (c : ascii) : Z := Z.of_N (code c) - 48.

Fixpoint scan_digits (acc : Z) (n : nat) (s : string) : Z * nat * string :=
  match s with
  | String c s' =>
      if is_digit c then scan_digits (10 * acc + digit_value c) (S n) s'
      else (acc, n, s)
  | EmptyString => (acc, n, s)
  end.

Definition scan_sign (s : string) : bool * string :=
  match s with
  | String c s' => if (code c =? 45)%N then (true, s') else (false, s)
  | EmptyString => (false, s)
  end.

Definition py_float_of_str (s : string) : result float :=
  let '(neg, s1) := scan_sign s in
  let '(ip, ni, s2) := scan_digits 0 0 s1 in
  match s2 with
  | EmptyString =>
      if (ni =? 0)%nat then Raise ValueError
      else Ok (float_of_decimal neg ip 0)
  | String c s3 =>
      if (code c =? 46)%N then
        let '(m, nf, s4) := scan_digits ip 0 s3 in
        if is_empty s4 && negb (ni + nf =? 0)%nat
        then Ok (float_of_decimal neg m nf)
        else Raise ValueError
      else Raise ValueError
  end.

(** ** JSON-like values *)

(** What [json.loads] produces: the candidate and everything inside it. *)
#[warnings="-register-all"]
Inductive pyval : Type :=
| PNone
| PBool (b : bool)
| PInt (z : Z)
| PFloat (f : float)
| PStr (s : string)
| PList (l : list pyval)
| PDict (d : list (string * pyval)).

(** Truth value of an object, as [or], [not] and [if] test it. *)
Definition truthy (v : pyval) : bool :=
  match v with
  | PNone => false
  | PBool b => b
  | PInt z => negb (z =? 0)%Z
  | PFloat (S754_zero _) => false
  | PFloat _ => true
  | PStr s => negb (is_empty s)
  | PList l => match l with [] => false | _ => true end
  | PDict d => match d with [] => false | _ => true end
  end.

Definition is_none (v : pyval) : bool :=
  match v with PNone => true | _ => false end.

(** ** normalize.py: value coercion *)

(** [re.sub(r"[^0-9.\-]", "", val.replace(",", ""))] *)
Definition clean_number (val : string) : string :=
  str_filter is_numeric_char (remove_char ","%char val).

Definition parse_float (val : pyval) : result (option float) :=
  match val with
  | PNone => Ok None
  | PBool b => f <- py_float_of_int (Z.b2z b) ;; Ok (Some f)
  | PInt z => f <- py_float_of_int z ;; Ok (Some f)
  | PFloat f => Ok (Some f)
  | PStr s =>
      let cleaned := clean_number s in
      match py_float_of_str cleaned with
      | Ok f => Ok (Some f)
      | Raise ValueError => Ok None
      | Raise e => Raise e
      end
  | PList _ | PDict _ => Ok None
  end.

Definition parse_int (val : pyval) : result (option Z) :=
  num <- parse_float val ;;
  match num with
  | Some f => z <- py_int_of_float f ;; Ok (Some z)
  | None => Ok None
  end.

(** ** normalize.py: recursive key search *)

Fixpoint _search (obj : pyval) (predicate : string -> bool) : pyval :=
  match obj with
  | PDict d =>
      (fix items (d : list (string * pyval)) : pyval :=
         match d with
         | [] => PNone
         | (k, v) :: d' =>
             if predicate k then v
             else match _search v predicate with
                  | PNone => items d'
                  | result => result
                  end
         end) d
  | PList l =>
      (fix elems (l : list pyval) : pyval :=
         match l with
         | [] => PNone
         | item :: l' =>
             match _search item predicate with
             | PNone => elems l'
             | result => result
             end
         end) l
  | _ => PNone
  end.

(** [k.replace("_", "").replace("-", "").lower()] *)
Definition strip_key (k : string) : string :=
  py_lower (remove_char "-"%char (remove_char "_"%char k)).

Definition _search_keys (obj : pyval) (keys : list string) : pyval :=
  let keyset : gset string := list_to_set (List.map py_lower keys) in
  _search obj (fun k => bool_decide (strip_key k ∈ keyset)).

(** ** normalize.py: field extractors *)

Definition parse_bedrooms (d : pyval) : result (option float) :=
  let val := _search_keys d ["beds"; "bedrooms"; "bed"] in
  parse_float val.

Definition parse_bathrooms (d : pyval) : result (option float) :=
  let val := _search_keys d ["baths"; "bathrooms"; "bath"] in
  parse_float val.

Definition any_in (needles : list string) (hay : string) : bool :=
  existsb (fun key => contains key hay) needles.

Definition sqft_pred (k : string) : bool :=
  any_in ["sqft"; "livingarea"; "livingareasqft"; "finishedsqft";
          "finishedarea"; "grosslivingsqft"]
         (py_lower (remove_char "_"%char k)).

Definition parse_sqft (d : pyval) : result (option Z) :=
  let val := _search d sqft_pred in
  parse_int val.

Definition lot_sqft_pred (k : string) : bool :=
  contains "lot" (py_lower k) && any_in ["sqft"; "area"] (py_lower k).

Definition lot_acres_pred (k : string) : bool :=
  contains "acre" (py_lower k).

Definition parse_lot_sizes (d : pyval) : result (option Z * option float) :=
  let sqft_val := _search d lot_sqft_pred in
  let acres_val := _search d lot_acres_pred in
  lot_size_sqft <- parse_int sqft_val ;;
  lot_size_acres <- parse_float acres_val ;;
  match lot_size_sqft, lot_size_acres with
  | None, Some acres =>
      prod <- py_float_mul_int acres 43560 ;;
      sqft <- py_int_of_float prod ;;
      Ok (Some sqft, lot_size_acres)
  | Some sqft, None =>
      acres <- py_int_truediv sqft 43560 ;;
      Ok (lot_size_sqft, Some acres)
  | _, _ => Ok (lot_size_sqft, lot_size_acres)
  end.

Definition price_pred (k : string) : bool := contains "price" (py_lower k).

Definition parse_price (d : pyval) : result (option Z) :=
  let val := _search d price_pred in
  parse_int val.

Definition parse_year_built (d : pyval) : result (option Z) :=
  let val := _search_keys d ["yearbuilt"; "built"; "constructionyear"] in
  parse_int val.

Definition rooms_total_pred (k : string) : bool :=
  contains "room" (py_lower k) && contains "total" (py_lower k).

Definition parse_rooms_total (d : pyval) : result (option float) :=
  let val := _search d rooms_total_pred in
  parse_float val.

Definition property_type_pred (k : string) : bool :=
  contains "propertytype" (py_lower (remove_char "_"%char k))
  || String.eqb (py_lower k) "type" || String.eqb (py_lower k) "hometype".

Definition description_pred (k : string) : bool :=
  any_in ["description"; "remarks"; "summary"]
         (py_lower (remove_char "_"%char k)).

Definition mls_id_pred (k : string) : bool :=
  bool_decide (py_lower k ∈
    ({["mls_id"]} ∪ {["mlsid"]} ∪ {["listingid"]} ∪ {["id"]} : gset string)).

(** [x or ""] *)
Definition or_empty (v : pyval) : pyval :=
  if truthy v then v else PStr "".

(** ** amenities.py: the vocabulary matcher *)

(** A vocabulary: canonical label and its synonyms, in file order. *)
Abbreviation vocabulary := (list (string * list string)).

Definition _reverse_vocab (vocab : vocabulary) : gmap string string :=
  fold_left
    (fun (reverse : gmap string string) (entry : string * list string) =>
       let canonical := strip entry.1 in
       fold_left
         (fun (reverse : gmap string string) (syn : string) =>
            <[_sanitize syn := canonical]> reverse)
         entry.2
         (<[_sanitize canonical := canonical]> reverse))
    vocab ∅.

(** [re.search(rf"\b{re.escape(syn)}\b", text)].  The pattern is a literal
    between two word boundaries; [prev] is the character before the
    current position, if any. *)
Definition wordb (o : option ascii) : bool :=
  match o with Some c => is_word c | None => false end.

Definition boundary (before after : option ascii) : bool :=
  xorb (wordb before) (wordb after).

Definition first_char (s : string) : option ascii :=
  match s with String c _ => Some c | EmptyString => None end.

Fixpoint literal_at (prev : option ascii) (pat text : string)
  : option (option ascii * string) :=
  match pat with
  | EmptyString => Some (prev, text)
  | String p pat' =>
      match text with
      | String c text' =>
          if Ascii.eqb p c then literal_at (Some c) pat' text' else None
      | EmptyString => None
      end
  end.

Definition word_match_at (prev : option ascii) (syn text : string) : bool :=
  boundary prev (first_char text)
  && match literal_at prev syn text with
     | Some (last, rest) => boundary last (first_char rest)
     | None => false
     end.

Fixpoint word_search_from (prev : option ascii) (syn text : string) : bool :=
  word_match_at prev syn text
  || match text with
     | EmptyString => false
     | String c text' => word_search_from (Some c) syn text'
     end.

Definition re_search_word (syn text : string) : bool :=
  word_search_from None syn text.

(** Code-point order on [str], the order of [sorted]. *)
Fixpoint str_leb (a b : string) : bool :=
  match a, b with
  | EmptyString, _ => true
  | String _ _, EmptyString => false
  | String x a', String y b' =>
      if (code x <? code y)%N then true
      else if (code x =? code y)%N then str_leb a' b'
      else false
  end.

Definition str_le (a b : string) : Prop := str_leb a b = true.

#[global] Instance str_le_dec (a b : string) : Decision (str_le a b).
Proof. unfold str_le. apply _. Defined.

(** [sorted(found)] for a set of strings. *)
Definition py_sorted (found : gset string) : list string :=
  merge_sort str_le (elements found).

Definition match_tokens (reverse : gmap string string)
    (raw_tokens : list string) : gset string :=
  fold_left
    (fun (found : gset string) (token : string) =>
       let key := _sanitize token in
       match reverse !! key with
       | Some canon => {[canon]} ∪ found
       | None => found
       end)
    raw_tokens ∅.

Definition scan_description (reverse : gmap string string) (text : string)
    (found : gset string) : gset string :=
  fold_left
    (fun (found : gset string) (item : string * string) =>
       if re_search_word item.1 text then {[item.2]} ∪ found else found)
    (map_to_list reverse) found.

Definition normalize_amenities (raw_tokens : list string)
    (vocab : vocabulary) (description : option string) : list string :=
  let reverse := _reverse_vocab vocab in
  let found := match_tokens reverse raw_tokens in
  let found :=
    match description with
    | Some desc =>
        if is_empty desc then found
        else scan_description reverse (_sanitize desc) found
    | None => found
    end in
  py_sorted found.

(** ** normalize.py: text fields, token harvesting and the row assembler *)

(** [collect_raw_amenities]: the nested [_extract] appends to [tokens] in
    traversal order; both branches of its test on the key do the same. *)
Definition amenity_key (k : string) : bool :=
  any_in ["amenit"; "feature"] (py_lower k).

Fixpoint _extract (obj : pyval) : list string :=
  match obj with
  | PDict d =>
      (fix items (d : list (string * pyval)) : list string :=
         match d with
         | [] => []
         | (k, v) :: d' =>
             ((if amenity_key k then _extract v else _extract v) ++ items d')%list
         end) d
  | PList l =>
      (fix elems (l : list pyval) : list string :=
         match l with
         | [] => []
         | item :: l' => (_extract item ++ elems l')%list
         end) l
  | PStr s => split_tokens s
  | _ => []
  end.

Definition collect_raw_amenities (d : pyval) (description_text : string)
  : list string :=
  let tokens := _extract d in
  if is_empty description_text then tokens
  else (tokens ++ split_tokens description_text)%list.

(** The row.  [city] and [state] are annotated [str], but the model class
    of the repository (the [pydantic] stand-in under [src/pydantic]) is a
    plain dataclass that stores what it is given, and the fallbacks are
    typed [Mapping[str, Optional[str]]]: the two fields hold a string or
    [None]. *)
Record ListingRow : Type := mkListingRow {
  source_url : string;
  mls_id : string;
  address : string;
  city : option string;
  state : option string;
  zip : string;
  beds : option float;
  baths : option float;
  rooms_total : option float;
  sqft : option Z;
  year_built : option Z;
  lot_size_sqft : option Z;
  lot_size_acres : option float;
  property_type : string;
  price : option Z;
  amenities : list string;
  description : string
}.

(** [city or fallbacks.get("city", "")] for a [str] [city]. *)
Definition or_fallback (extracted : string)
    (fallbacks : gmap string (option string)) (key : string) : option string :=
  if negb (is_empty extracted) then Some extracted
  else default (Some EmptyString) (fallbacks !! key).

Section Assembler.

(** Python's built-in [str()] on a value that is not a string (the text
    of a number, a boolean, [None] or a container).  The engine does not
    define it and no property below depends on that text. *)
Variable str_of_object : pyval -> string.

Definition py_str (v : pyval) : string :=
  match v with
  | PStr s => s
  | _ => str_of_object v
  end.

Definition line1_keys : list string := ["line1"; "street"; "address1"].
Definition city_keys : list string := ["city"; "cityname"].
Definition state_keys : list string := ["state"; "statecode"; "province"].
Definition zip_keys : list string := ["postalcode"; "zipcode"; "zip"; "postal"].

(** The first half of [parse_address_block]: what the address object
    gives. *)
Definition address_parts (addr_obj : pyval)
  : pyval * pyval * pyval * pyval :=
  match addr_obj with
  | PDict _ =>
      (or_empty (_search_keys addr_obj line1_keys),
       or_empty (_search_keys addr_obj city_keys),
       or_empty (_search_keys addr_obj state_keys),
       or_empty (_search_keys addr_obj zip_keys))
  | PStr _ => (addr_obj, PStr "", PStr "", PStr "")
  | _ => (PStr "", PStr "", PStr "", PStr "")
  end.

(** [if not x: x = _search_keys(d, keys) or ""] *)
Definition top_level (d : pyval) (keys : list string) (x : pyval) : pyval :=
  if negb (truthy x) then or_empty (_search_keys d keys) else x.

Definition parse_address_block (d : pyval)
  : string * string * string * string :=
  let addr_obj := _search_keys d ["address"] in
  let '(address, city, state, zip_code) := address_parts addr_obj in
  let city := top_level d city_keys city in
  let state := top_level d state_keys state in
  let zip_code := top_level d zip_keys zip_code in
  (py_str address, py_str city, py_str state, py_str zip_code).

Definition parse_property_type (d : pyval) : string :=
  let val := _search d property_type_pred in
  if is_none val then "" else py_str val.

Definition parse_description (d : pyval) : string :=
  let val := _search d description_pred in
  if is_none val then "" else py_str val.

Definition to_listing_row (raw_dict : pyval) (url : string)
    (vocab : vocabulary) (fallbacks : gmap string (option string))
  : result ListingRow :=
  let description := parse_description raw_dict in
  let raw_tokens := collect_raw_amenities raw_dict description in
  let amenities := normalize_amenities raw_tokens vocab (Some description) in
  lots <- parse_lot_sizes raw_dict ;;
  let '(address, city, state, zip_code) := parse_address_block raw_dict in
  beds <- parse_bedrooms raw_dict ;;
  baths <- parse_bathrooms raw_dict ;;
  rooms_total <- parse_rooms_total raw_dict ;;
  sqft <- parse_sqft raw_dict ;;
  year_built <- parse_year_built raw_dict ;;
  let property_type := parse_property_type raw_dict in
  price <- parse_price raw_dict ;;
  Ok {| source_url := url;
        mls_id := py_str (or_empty (_search raw_dict mls_id_pred));
        address := address;
        city := or_fallback city fallbacks "city";
        state := or_fallback state fallbacks "state";
        zip := zip_code;
        beds := beds;
        baths := baths;
        rooms_total := rooms_total;
        sqft := sqft;
        year_built := year_built;
        lot_size_sqft := lots.1;
        lot_size_acres := lots.2;
        property_type := property_type;
        price := price;
        amenities := amenities;
        description := description |}.

(** The city and the state [parse_address_block] returns. *)
Definition extracted_city (d : pyval) : string :=
  let '(_, city, _, _) := parse_address_block d in city.

Definition extracted_state (d : pyval) : string :=
  let '(_, _, state, _) := parse_address_block d in state.

End Assembler.

(** ** Definitions used to state the properties *)

(** Every value of an index satisfies [P]. *)
Definition values_in (P : string -> Prop) (m : gmap string string) : Prop :=
  forall k v, m !! k = Some v -> P v.

(** One turn of the outer loop of [_reverse_vocab]. *)
Definition add_entry (reverse : gmap string string)
    (entry : string * list string) : gmap string string :=
  let canonical := strip entry.1 in
  fold_left
    (fun (reverse : gmap string string) (syn : string) =>
       <[_sanitize syn := canonical]> reverse)
    entry.2
    (<[_sanitize canonical := canonical]> reverse).

(** Induction over a value and the values nested in it. *)
Definition pyval_nested_ind (P : pyval -> Prop)
    (HNone : P PNone) (HBool : forall b, P (PBool b))
    (HInt : forall z, P (PInt z)) (HFloat : forall f, P (PFloat f))
    (HStr : forall s, P (PStr s))
    (HList : forall l, Forall P l -> P (PList l))
    (HDict : forall d, Forall (fun kv => P kv.2) d -> P (PDict d))
  : forall v, P v :=
  fix go (v : pyval) : P v :=
    match v with
    | PNone => HNone
    | PBool b => HBool b
    | PInt z => HInt z
    | PFloat f => HFloat f
    | PStr s => HStr s
    | PList l =>
        HList l ((fix all (l : list pyval) : Forall P l :=
                    match l with
                    | [] => List.Forall_nil P
                    | x :: l' => List.Forall_cons P x l' (go x) (all l')
                    end) l)
    | PDict d =>
        HDict d ((fix all (d : list (string * pyval))
                    : Forall (fun kv => P kv.2) d :=
                    match d with
                    | [] => List.Forall_nil _
                    | kv :: d' => List.Forall_cons _ kv d' (go kv.2) (all d')
                    end) d)
    end.

(** The keys of a tree in the order the search meets them: a key, then the
    keys inside its value, then the next sibling key. *)
Fixpoint all_keys (obj : pyval) : list string :=
  match obj with
  | PDict d =>
      (fix items (d : list (string * pyval)) : list string :=
         match d with
         | [] => []
         | (k, v) :: d' => k :: (all_keys v ++ items d')%list
         end) d
  | PList l =>
      (fix elems (l : list pyval) : list string :=
         match l with
         | [] => []
         | item :: l' => (all_keys item ++ elems l')%list
         end) l
  | _ => []
  end.

(** The key family of [parse_bedrooms], and a candidate with a nested and
    a shallow key of that family. *)
Definition beds_keys : list string := ["beds"; "bedrooms"; "bed"].

Definition nested_beds : pyval :=
  PDict [("a", PDict [("beds", PInt 2)]); ("bedrooms", PInt 3)].

(** The predicate [_search_keys] hands to [_search]. *)
Definition keys_pred (keys : list string) (k : string) : bool :=
  bool_decide (strip_key k ∈ (list_to_set (List.map py_lower keys) : gset string)).

(** [x in s] for a one-character [x]. *)
Fixpoint str_has (x : ascii) (s : string) : bool :=
  match s with
  | EmptyString => false
  | String c s' => Ascii.eqb c x || str_has x s'
  end.

(** The double 0.5. *)
Definition half : float := S754_finite false 4503599627370496 (-53).

(** The exception a result carries, if any. *)
Definition raised {A : Type} (r : result A) : option exn :=
  match r with
  | Ok _ => None
  | Raise e => Some e
  end.

(** The first of two failures. *)
Definition or_else (a b : option exn) : option exn :=
  match a with
  | Some e => Some e
  | None => b
  end.

(** The first failure among the numeric extractors, in the order
    [to_listing_row] runs them. *)
Definition numeric_failure (d : pyval) : option exn :=
  or_else (raised (parse_lot_sizes d))
  (or_else (raised (parse_bedrooms d))
  (or_else (raised (parse_bathrooms d))
  (or_else (raised (parse_rooms_total d))
  (or_else (raised (parse_sqft d))
  (or_else (raised (parse_year_built d))
           (raised (parse_price d))))))).

(** No key of the tree belongs to the family [keys]. *)
Definition no_field (keys : list string) (d : pyval) : bool :=
  forallb (fun k => negb (keys_pred keys k)) (all_keys d).

(** Sample inputs.  [str_of_object_blank] stands for [str()] on
    non-strings in examples where no such value is rendered. *)
Definition str_of_object_blank (v : pyval) : string := "".

Definition sample_fallbacks : gmap string (option string) :=
  <["city" := Some "FallbackVille"]> (<["state" := Some "CA"]> ∅).

Definition null_fallbacks : gmap string (option string) :=
  <["city" := None]> (<["state" := None]> ∅).

Definition sample_vocab : vocabulary :=
  [("garage", ["two car garage"]); ("pool", ["swimming pool"]);
   ("solar", ["solar panels"])].

Definition sample_candidate : pyval :=
  PDict [("address", PDict [("line1", PStr "123 Main St");
                            ("zip", PStr "12345")]);
         ("beds", PInt 3); ("baths", PStr "2.5");
         ("lot_acres", PStr "0.5"); ("price", PStr "$350,000");
         ("amenities", PStr "garage, pool");
         ("remarks", PStr "Solar panels installed.")].




(** The maximal runs of word characters of a text: [runs] returns the run
    the text starts with (empty if it starts with another character) and
    the runs after it. *)
Fixpoint runs (s : string) : string * list string :=
  match s with
  | EmptyString => (EmptyString, [])
  | String c s' =>
      let '(h, t) := runs s' in
      if is_word c then (String c h, t)
      else (EmptyString, if is_empty h then t else h :: t)
  end.

(** All the runs, in order. *)
Definition word_runs (s : string) : list string :=
  let '(h, t) := runs s in if is_empty h then t else h :: t.

(** Each word preceded by one space. *)
Fixpoint spaced (ws : list string) : string :=
  match ws with
  | [] => EmptyString
  | w :: ws' => String " " (w ++ spaced ws')
  end.

(** [" ".join(ws)] *)
Definition unwords (ws : list string) : string :=
  match ws with
  | [] => EmptyString
  | w :: ws' => w ++ spaced ws'
  end.

(** [s[-1]], if any. *)
Fixpoint last_char (s : string) : option ascii :=
  match s with
  | EmptyString => None
  | String c EmptyString => Some c
  | String _ s' => last_char s'
  end.

(** Every occurrence of [syn] in [text] has a word character right before
    it or right after it: it lies inside a larger word.  [prev] is the
    character before the current position. *)
Fixpoint inside_words_from (prev : option ascii) (syn text : string) : bool :=
  match literal_at prev syn text with
  | Some (_, rest) => wordb prev || wordb (first_char rest)
  | None => true
  end
  && match text with
     | EmptyString => true
     | String c text' => inside_words_from (Some c) syn text'
     end.

Definition only_inside_words (syn text : string) : bool :=
  inside_words_from None syn text.

(** ** har_parser.py: listing detection *)

Definition _ADDR_KEYS : gset string :=
  list_to_set ["address"; "street"; "city"; "state"; "postal"; "zip";
               "zipcode"].

Definition _LISTING_KEYS : gset string :=
  list_to_set ["beds"; "bedrooms"; "baths"; "bathrooms"; "sqft"; "area";
               "lot"; "yearbuilt"; "propertytype"; "price"; "description";
               "remarks"].

(** The test of [walk] on a mapping:
    [keys & _ADDR_KEYS and keys & _LISTING_KEYS]. *)
Definition looks_like_listing (node : list (string * pyval)) : bool :=
  let keys : gset string := list_to_set (List.map (fun kv => py_lower kv.1) node) in
  bool_decide (keys ∩ _ADDR_KEYS ≠ ∅) && bool_decide (keys ∩ _LISTING_KEYS ≠ ∅).

(** The nested [walk]: what it appends to [found], in order. *)
Fixpoint walk (node : pyval) : list pyval :=
  match node with
  | PDict d =>
      ((if looks_like_listing d then [node] else []) ++
       (fix values (d : list (string * pyval)) : list pyval :=
          match d with
          | [] => []
          | (_, val) :: d' => (walk val ++ values d')%list
          end) d)%list
  | PList l =>
      (fix items (l : list pyval) : list pyval :=
         match l with
         | [] => []
         | item :: l' => (walk item ++ items l')%list
         end) l
  | _ => []
  end.

Definition extract_listings_from_json (url : string) (obj : pyval)
  : list pyval :=
  walk obj.

(** ** csv_writer.py: the deduplicating writer *)

(** The identity of a row: [(address, city, state, zip, source_url)]. *)
Definition dedup_key : Type :=
  (string * option string * option string * string * string)%type.

(** The state of a [CSVWriter]: the rows appended to the CSV file, the
    set [seen], and the keys appended to the [seen_path] file when one is
    configured. *)
Record CSVWriter : Type := mkCSVWriter {
  written_rows : list ListingRow;
  seen : gset dedup_key;
  seen_file : option (list dedup_key)
}.

Definition _key (row : ListingRow) : dedup_key :=
  (address row, city row, state row, zip row, source_url row).

(** How a call of [CSVWriter.write] ends: it returns a flag, or one of its
    two file operations raises. *)
Inductive write_result : Type :=
| Returned (fresh : bool)
| IOFailed.

(** [CSVWriter.write]: how the call ends and the writer afterwards.  The
    two file operations can raise ([UnicodeEncodeError] on text the utf-8
    file rejects, [OSError]); whether they do is not decided by the
    writer's state, so it is an input: [row_io] says that
    [self.writer.writerow(data)] returns, [seen_io] that the append to the
    [seen_path] file does.  The key is added to [seen] before the row is
    written, so a raising [writerow] leaves a seen key with no row; a
    raising operation appends nothing to its file (the text is encoded
    before it reaches the file). *)
Definition write (self : CSVWriter) (listing : ListingRow)
    (row_io seen_io : bool) : write_result * CSVWriter :=
  let key := _key listing in
  if bool_decide (key ∈ seen self) then (Returned false, self)
  else
    let seen' := {[key]} ∪ seen self in
    if row_io then
      let rows' := (written_rows self ++ [listing])%list in
      match seen_file self with
      | Some keys =>
          if seen_io
          then (Returned true,
                {| written_rows := rows'; seen := seen';
                   seen_file := Some (keys ++ [key])%list |})
          else (IOFailed,
                {| written_rows := rows'; seen := seen';
                   seen_file := Some keys |})
      | None =>
          (Returned true,
           {| written_rows := rows'; seen := seen'; seen_file := None |})
      end
    else (IOFailed,
          {| written_rows := written_rows self; seen := seen';
             seen_file := seen_file self |}).

(** ** cli.py: [_process_har] *)

(** The counters [candidates], [written], [deduped]. *)
Record har_counts : Type := mkCounts {
  candidates : nat;
  written : nat;
  deduped : nat
}.

Section ProcessHar.

Variable str_of_object : pyval -> string.

(** What the file system does during the run: [write_io k] tells whether
    the two file operations of [write] return for the candidate met after
    [k] others. *)
Variable write_io : nat -> bool * bool.

(** The body of the inner loop: one raw listing.  The candidate is
    counted, then [to_listing_row] and [writer.write] run inside one
    [try]: an exception of either is caught and logged, and the candidate
    is counted neither as written nor as deduplicated. *)
Definition process_raw (vocab : vocabulary)
    (fallbacks : gmap string (option string)) (url : string)
    (st : har_counts * CSVWriter) (raw : pyval) : har_counts * CSVWriter :=
  let '(n, writer) := st in
  let io := write_io (candidates n) in
  let n := {| candidates := S (candidates n); written := written n;
              deduped := deduped n |} in
  match to_listing_row str_of_object raw url vocab fallbacks with
  | Ok row =>
      match write writer row io.1 io.2 with
      | (Returned true, writer) =>
          ({| candidates := candidates n; written := S (written n);
              deduped := deduped n |}, writer)
      | (Returned false, writer) =>
          ({| candidates := candidates n; written := written n;
              deduped := S (deduped n) |}, writer)
      | (IOFailed, writer) => (n, writer)
      end
  | Raise _ => (n, writer)
  end.

(** [_process_har], from the decoded bodies on: [bodies] is what
    [candidate_json_bodies(iter_har_entries(har_path))] yields, the pairs
    of a URL and a JSON value.  Returns the counters and the writer. *)
Definition _process_har (bodies : list (string * pyval)) (writer : CSVWriter)
    (vocab : vocabulary) (fallbacks : gmap string (option string))
  : har_counts * CSVWriter :=
  fold_left
    (fun (st : har_counts * CSVWriter) (body : string * pyval) =>
       fold_left (process_raw vocab fallbacks body.1)
                 (extract_listings_from_json body.1 body.2) st)
    bodies
    ({| candidates := 0; written := 0; deduped := 0 |}, writer).

End ProcessHar.

(** ** Definitions used to state further properties *)

(** Every node of a tree, the tree itself first, in traversal order. *)
Fixpoint nodes (v : pyval) : list pyval :=
  v :: match v with
       | PDict d =>
           (fix values (d : list (string * pyval)) : list pyval :=
              match d with
              | [] => []
              | (_, val) :: d' => (nodes val ++ values d')%list
              end) d
       | PList l =>
           (fix items (l : list pyval) : list pyval :=
              match l with
              | [] => []
              | item :: l' => (nodes item ++ items l')%list
              end) l
       | _ => []
       end.

(** Every key of a tree with the value it is bound to, in traversal
    order. *)
Fixpoint entries (obj : pyval) : list (string * pyval) :=
  match obj with
  | PDict d =>
      (fix items (d : list (string * pyval)) : list (string * pyval) :=
         match d with
         | [] => []
         | (k, v) :: d' => (k, v) :: (entries v ++ items d')%list
         end) d
  | PList l =>
      (fix elems (l : list pyval) : list (string * pyval) :=
         match l with
         | [] => []
         | item :: l' => (entries item ++ elems l')%list
         end) l
  | _ => []
  end.

(** The text contains a digit [0-9]. *)
Definition has_digit (s : string) : bool :=
  negb (is_empty (str_filter is_digit s)).

(** The raw listings of a batch, in the order [_process_har] meets
    them. *)
Definition raw_listings (bodies : list (string * pyval)) : list pyval :=
  List.concat (List.map (fun body => extract_listings_from_json body.1 body.2)
                        bodies).

(** A writer on a new file. *)
Definition new_writer : CSVWriter :=
  {| written_rows := []; seen := ∅; seen_file := None |}.

(** Every written row has its key in [seen], and no two written rows share
    a key. *)
Definition writer_ok (w : CSVWriter) : Prop :=
  NoDup (List.map _key (written_rows w)) /\
  forall row, row ∈ written_rows w -> _key row ∈ seen w.

(** A node that [walk] keeps. *)
Definition is_listing_node (v : pyval) : bool :=
  match v with
  | PDict d => looks_like_listing d
  | _ => false
  end.

(** The raw listing makes [to_listing_row] raise. *)
Definition fails (raw : pyval) : bool :=
  match numeric_failure raw with
  | Some _ => true
  | None => false
  end.



(** The number of candidates among [from], ..., [from + count - 1] for
    which a file operation of [write] would raise. *)
Definition io_failures (write_io : nat -> bool * bool) (from count : nat)
  : nat :=
  length (List.filter (fun k => negb ((write_io k).1 && (write_io k).2))
                      (List.seq from count)).

(** The balance kept by the loop between two states, for the candidates
    consumed in between, [raised_writes] of which had [write] raise. *)
Definition balanced (write_io : nat -> bool * bool)
    (before after : har_counts * CSVWriter) (raws : list pyval)
    (raised_writes : nat) : Prop :=
  candidates after.1 = candidates before.1 + length raws /\
  written after.1 + deduped after.1 + length (List.filter fails raws)
  + raised_writes
  = written before.1 + deduped before.1 + length raws /\
  raised_writes <= io_failures write_io (candidates before.1) (length raws) /\
  length (written_rows before.2) + written after.1
  <= length (written_rows after.2) + written before.1 /\
  length (written_rows after.2) + written before.1
  <= length (written_rows before.2) + written after.1 + raised_writes /\
  (seen_file before.2 = None ->
   seen_file after.2 = None /\
   length (written_rows after.2) + written before.1
   = length (written_rows before.2) + written after.1) /\
  (writer_ok before.2 -> writer_ok after.2).

(** The key is read by some extractor of [to_listing_row]. *)
Definition recognized (k : string) : bool :=
  keys_pred ["beds"; "bedrooms"; "bed"] k
  || keys_pred ["baths"; "bathrooms"; "bath"] k
  || rooms_total_pred k || sqft_pred k || lot_sqft_pred k
  || lot_acres_pred k || price_pred k
  || keys_pred ["yearbuilt"; "built"; "constructionyear"] k
  || property_type_pred k || description_pred k || mls_id_pred k
  || keys_pred ["address"] k || keys_pred city_keys k
  || keys_pred state_keys k || keys_pred zip_keys k.

(** No key of the tree is read by any extractor. *)
Definition unrecognized (d : pyval) : bool :=
  forallb (fun k => negb (recognized k)) (all_keys d).

(** Every string value of a tree, in traversal order. *)
Fixpoint strings_of (obj : pyval) : list string :=
  match obj with
  | PDict d =>
      (fix items (d : list (string * pyval)) : list string :=
         match d with
         | [] => []
         | (_, v) :: d' => (strings_of v ++ items d')%list
         end) d
  | PList l =>
      (fix elems (l : list pyval) : list string :=
         match l with
         | [] => []
         | item :: l' => (strings_of item ++ elems l')%list
         end) l
  | PStr s => [s]
  | _ => []
  end.

(** The index keys an entry of the vocabulary writes: the sanitized label
    and the sanitized synonyms. *)
Definition terms (entry : string * list string) : list string :=
  _sanitize (strip entry.1) :: List.map _sanitize entry.2.

(** The last character of [s], or [prev] when [s] is empty: the character
    before a position reached after reading [s]. *)
Definition last_or (prev : option ascii) (s : string) : option ascii :=
  match last_char s with
  | Some c => Some c
  | None => prev
  end.

(** Every character of the text satisfies [P]. *)
Fixpoint str_all (P : ascii -> bool) (s : string) : bool :=
  match s with
  | EmptyString => true
  | String c s' => P c && str_all P s'
  end.

(** A lower-case word character: what the words of a sanitized text are
    made of. *)
Definition low_word (c : ascii) : bool :=
  is_word c && Ascii.eqb (lower_char c) c.

(** Sample rows: the same identity, two prices. *)
Definition sample_row (asking : Z) : ListingRow :=
  {| source_url := "http://example.com/1"; mls_id := "MLS1";
     address := "123 Main St"; city := Some "Townsville";
     state := Some "CA"; zip := "12345"; beds := None; baths := None;
     rooms_total := None; sqft := Some 1500%Z; year_built := None;
     lot_size_sqft := None; lot_size_acres := None; property_type := "";
     price := Some asking; amenities := ["garage"]; description := "" |}.

(** A vocabulary where two entries share a synonym and one synonym is
    punctuation only. *)
Definition clashing_vocab : vocabulary :=
  [("parking", ["garage"]); ("garage", ["two car garage"; "garage"]);
   ("misc", ["!!!"])].

(** * Properties *)

Example sanitize_garage : _sanitize "TWO  CAR-Garage! " = "two car garage".
Proof. reflexivity. Qed.

(** ** The order of [sorted] *)

Lemma str_leb_refl (a : string) : str_leb a a = true.
Proof.
  induction a as [|x a IH]; simpl; [reflexivity|].
  rewrite N.ltb_irrefl, N.eqb_refl. exact IH.
Qed.

Lemma code_inj (x y : ascii) : code x = code y -> x = y.
Proof.
  unfold code. intros H.
  rewrite <- (ascii_N_embedding x), <- (ascii_N_embedding y). now rewrite H.
Qed.

#[global] Instance str_le_total : Total str_le.
Proof.
  intros a. unfold str_le.
  induction a as [|x a IH]; intros [|y b]; simpl; auto.
  destruct (N.ltb_spec (code x) (code y)) as [Hxy|Hxy]; [now left|].
  destruct (N.ltb_spec (code y) (code x)) as [Hyx|Hyx]; [now right|].
  assert (code x = code y) as E by lia.
  rewrite E, N.eqb_refl. apply IH.
Qed.

#[global] Instance str_le_trans : Transitive str_le.
Proof.
  intros a. unfold str_le.
  induction a as [|x a IH]; intros [|y b] [|z c]; simpl; auto; try discriminate.
  destruct (N.ltb_spec (code x) (code y)) as [Hxy|Hxy];
    destruct (N.ltb_spec (code y) (code z)) as [Hyz|Hyz];
    destruct (N.ltb_spec (code x) (code z)) as [Hxz|Hxz]; auto; try lia;
    destruct (N.eqb_spec (code x) (code y));
    destruct (N.eqb_spec (code y) (code z));
    destruct (N.eqb_spec (code x) (code z)); auto; try lia; try discriminate.
  apply IH.
Qed.

#[global] Instance str_le_antisym : AntiSymm (=) str_le.
Proof.
  intros a. unfold str_le.
  induction a as [|x a IH]; intros [|y b]; simpl; auto; try discriminate.
  destruct (N.ltb_spec (code x) (code y)) as [Hxy|Hxy];
    destruct (N.ltb_spec (code y) (code x)) as [Hyx|Hyx]; try lia;
    destruct (N.eqb_spec (code x) (code y));
    destruct (N.eqb_spec (code y) (code x)); try lia; try discriminate.
  intros Hab Hba. f_equal; [now apply code_inj | now apply IH].
Qed.

Lemma py_sorted_sorted (found : gset string) :
  StronglySorted str_le (py_sorted found).
Proof. apply StronglySorted_merge_sort; apply _. Qed.

Lemma py_sorted_NoDup (found : gset string) : NoDup (py_sorted found).
Proof.
  unfold py_sorted. rewrite merge_sort_Permutation. apply NoDup_elements.
Qed.

Lemma elem_of_py_sorted (found : gset string) (x : string) :
  x ∈ py_sorted found ↔ x ∈ found.
Proof.
  unfold py_sorted. rewrite merge_sort_Permutation. apply elem_of_elements.
Qed.

(** ** The reverse index and the matcher *)

Lemma _reverse_vocab_fold (vocab : vocabulary) :
  _reverse_vocab vocab = fold_left add_entry vocab ∅.
Proof. reflexivity. Qed.

Section ReverseRange.

Variable P : string -> Prop.

Lemma values_in_insert (m : gmap string string) (k v : string) :
  values_in P m -> P v -> values_in P (<[k := v]> m).
Proof.
  intros Hm Hv k' v'. rewrite lookup_insert.
  case_decide; [intros [= <-]; exact Hv | apply Hm].
Qed.

Lemma values_in_syns (syns : list string) (canonical : string)
    (m : gmap string string) :
  values_in P m -> P canonical ->
  values_in P (fold_left (fun (r : gmap string string) (syn : string) =>
                          <[_sanitize syn := canonical]> r) syns m).
Proof.
  revert m. induction syns as [|syn syns IH]; intros m Hm Hc; simpl; [exact Hm|].
  apply IH; [apply values_in_insert|]; assumption.
Qed.

Lemma values_in_entries (vocab : vocabulary) (m : gmap string string) :
  values_in P m -> (forall entry, entry ∈ vocab -> P (strip entry.1)) ->
  values_in P (fold_left add_entry vocab m).
Proof.
  revert m. induction vocab as [|entry vocab IH]; intros m Hm Hv; simpl; [exact Hm|].
  apply IH.
  - unfold add_entry. apply values_in_syns; [apply values_in_insert|];
      auto; apply Hv; left.
  - intros e He. apply Hv. now right.
Qed.

End ReverseRange.

Lemma _reverse_vocab_range (vocab : vocabulary) (k v : string) :
  _reverse_vocab vocab !! k = Some v ->
  exists entry, entry ∈ vocab /\ v = strip entry.1.
Proof.
  rewrite _reverse_vocab_fold.
  apply (values_in_entries (fun v => exists entry, entry ∈ vocab /\ v = strip entry.1)).
  - intros k' v'. rewrite lookup_empty. discriminate.
  - intros entry He. now exists entry.
Qed.

Lemma elem_of_match_tokens (reverse : gmap string string)
    (raw_tokens : list string) (c : string) :
  c ∈ match_tokens reverse raw_tokens ↔
  exists token, token ∈ raw_tokens /\ reverse !! _sanitize token = Some c.
Proof.
  unfold match_tokens.
  assert (forall (init : gset string),
    c ∈ fold_left
          (fun (found : gset string) (token : string) =>
             let key := _sanitize token in
             match reverse !! key with
             | Some canon => {[canon]} ∪ found
             | None => found
             end) raw_tokens init ↔
    c ∈ init \/ exists token, token ∈ raw_tokens /\
                              reverse !! _sanitize token = Some c) as H.
  { induction raw_tokens as [|t ts IH]; intros init; simpl.
    - split; [now left|]. intros [?|[tok [Hin _]]]; [assumption|].
      now apply elem_of_nil in Hin.
    - rewrite IH. split.
      + intros [Hc|[tok [Hin Hl]]].
        * destruct (reverse !! _sanitize t) as [canon|] eqn:E; [|now left].
          apply elem_of_union in Hc as [Hc|Hc]; [|now left].
          apply elem_of_singleton in Hc as ->.
          right. exists t. split; [left | exact E].
        * right. exists tok. split; [now right | exact Hl].
      + intros [Hc|[tok [Hin Hl]]].
        * left. destruct (reverse !! _sanitize t); [|exact Hc].
          apply elem_of_union. now right.
        * apply elem_of_cons in Hin as [->|Hin].
          -- left. rewrite Hl. apply elem_of_union. left.
             now apply elem_of_singleton.
          -- right. now exists tok. }
  rewrite H. split; [intros [Hc|Hc]; [|exact Hc] | now right].
  now apply elem_of_empty in Hc.
Qed.

Lemma elem_of_scan_description (reverse : gmap string string) (text : string)
    (found : gset string) (c : string) :
  c ∈ scan_description reverse text found ↔
  c ∈ found \/
  exists syn, reverse !! syn = Some c /\ re_search_word syn text = true.
Proof.
  unfold scan_description.
  assert (forall (items : list (string * string)) (init : gset string),
    c ∈ fold_left
          (fun (found : gset string) (item : string * string) =>
             if re_search_word item.1 text then {[item.2]} ∪ found else found)
          items init ↔
    c ∈ init \/ exists syn, (syn, c) ∈ items /\
                            re_search_word syn text = true) as H.
  { induction items as [|[syn canon] items IH]; intros init; simpl.
    - split; [now left|]. intros [?|[syn [Hin _]]]; [assumption|].
      now apply elem_of_nil in Hin.
    - rewrite IH. split.
      + intros [Hc|[syn' [Hin Hm]]].
        * destruct (re_search_word syn text) eqn:E; [|now left].
          apply elem_of_union in Hc as [Hc|Hc]; [|now left].
          apply elem_of_singleton in Hc as ->.
          right. exists syn. split; [left | exact E].
        * right. exists syn'. split; [now right | exact Hm].
      + intros [Hc|[syn' [Hin Hm]]].
        * left. destruct (re_search_word syn text); [|exact Hc].
          apply elem_of_union. now right.
        * apply elem_of_cons in Hin as [[= -> ->]|Hin].
          -- left. rewrite Hm. apply elem_of_union. left.
             now apply elem_of_singleton.
          -- right. now exists syn'. }
  rewrite H. split.
  - intros [Hc|[syn [Hin Hm]]]; [now left|]. right. exists syn.
    split; [now apply elem_of_map_to_list | exact Hm].
  - intros [Hc|[syn [Hin Hm]]]; [now left|]. right. exists syn.
    split; [now apply elem_of_map_to_list | exact Hm].
Qed.

(** Where a label of the result comes from: a raw token, or an index entry
    found in the description. *)
Lemma elem_of_normalize_amenities (raw_tokens : list string)
    (vocab : vocabulary) (description : option string) (c : string) :
  c ∈ normalize_amenities raw_tokens vocab description ↔
  (exists token, token ∈ raw_tokens /\
                 _reverse_vocab vocab !! _sanitize token = Some c) \/
  (exists desc syn, description = Some desc /\ is_empty desc = false /\
                    _reverse_vocab vocab !! syn = Some c /\
                    re_search_word syn (_sanitize desc) = true).
Proof.
  unfold normalize_amenities. rewrite elem_of_py_sorted.
  destruct description as [desc|].
  - destruct (is_empty desc) eqn:E.
    + rewrite elem_of_match_tokens. split; [now left|].
      intros [H|(d & syn & [= <-] & H & _)]; [exact H | congruence].
    + rewrite elem_of_scan_description, elem_of_match_tokens. split.
      * intros [H|(syn & H1 & H2)]; [now left|].
        right. exists desc, syn. auto.
      * intros [H|(d & syn & [= <-] & _ & H1 & H2)]; [now left|].
        right. now exists syn.
  - rewrite elem_of_match_tokens. split; [now left|].
    intros [H|(d & syn & H & _)]; [exact H | discriminate].
Qed.

(** C1, as amended: for every vocabulary, token list and optional
    description, [normalize_amenities] returns a sequence sorted in
    code-point order and free of duplicates, and every returned label is
    the whitespace-stripped form of a key of the vocabulary (hence a key
    itself whenever the keys carry no surrounding whitespace). *)
Theorem normalize_amenities_sorted_canonical (raw_tokens : list string)
    (vocab : vocabulary) (description : option string) :
  let out := normalize_amenities raw_tokens vocab description in
  StronglySorted str_le out /\ NoDup out /\
  (forall label, label ∈ out ->
     exists key, key ∈ List.map fst vocab /\ label = strip key) /\
  ((forall key, key ∈ List.map fst vocab -> strip key = key) ->
   forall label, label ∈ out -> label ∈ List.map fst vocab).
Proof.
  assert (forall label,
    label ∈ normalize_amenities raw_tokens vocab description ->
    exists key, key ∈ List.map fst vocab /\ label = strip key) as Hkey.
  { intros label Hl. apply elem_of_normalize_amenities in Hl.
    assert (exists k, _reverse_vocab vocab !! k = Some label) as [k Hk].
    { destruct Hl as [(t & _ & H)|(d & syn & _ & _ & H & _)]; eauto. }
    apply _reverse_vocab_range in Hk as (entry & He & ->).
    exists entry.1. split; [|reflexivity].
    apply list_elem_of_fmap. now exists entry. }
  cbv zeta. repeat split.
  - apply py_sorted_sorted.
  - apply py_sorted_NoDup.
  - exact Hkey.
  - intros Hclean label Hl. destruct (Hkey label Hl) as (key & Hin & ->).
    now rewrite (Hclean key Hin).
Qed.

(** C1 fails as stated: a vocabulary key with surrounding whitespace is
    returned stripped, and the stripped text is not a key. *)
Lemma normalize_amenities_label_not_key :
  ~ (forall (raw_tokens : list string) (vocab : vocabulary)
       (description : option string) (label : string),
       label ∈ normalize_amenities raw_tokens vocab description ->
       label ∈ List.map fst vocab).
Proof.
  intros H.
  specialize (H ["pool"] [(" pool", ["swimming pool"])] None "pool").
  assert ("pool" ∈ normalize_amenities ["pool"] [(" pool", ["swimming pool"])] None)
    as Hin by (vm_compute; left).
  apply H in Hin. simpl in Hin.
  apply list_elem_of_singleton in Hin. discriminate.
Qed.

Lemma normalize_amenities_sorted_canonical_witness :
  "pool" ∈ List.map fst [("pool", ["swimming pool"])].
Proof.
  refine (proj2 (proj2 (proj2 (normalize_amenities_sorted_canonical
            ["Swimming Pool!"] [("pool", ["swimming pool"])] None))) _ "pool" _).
  - intros key Hkey. apply list_elem_of_singleton in Hkey as ->. reflexivity.
  - vm_compute. left.
Defined.

(** ** Recursive key search *)

Lemma _search_dict_cons (k : string) (v : pyval) (d : list (string * pyval))
    (p : string -> bool) :
  _search (PDict ((k, v) :: d)) p =
  if p k then v
  else match _search v p with
       | PNone => _search (PDict d) p
       | result => result
       end.
Proof. reflexivity. Qed.

Lemma _search_list_cons (item : pyval) (l : list pyval) (p : string -> bool) :
  _search (PList (item :: l)) p =
  match _search item p with
  | PNone => _search (PList l) p
  | result => result
  end.
Proof. reflexivity. Qed.

Lemma all_keys_dict_cons (k : string) (v : pyval) (d : list (string * pyval)) :
  all_keys (PDict ((k, v) :: d)) = k :: (all_keys v ++ all_keys (PDict d))%list.
Proof. reflexivity. Qed.

Lemma all_keys_list_cons (item : pyval) (l : list pyval) :
  all_keys (PList (item :: l)) = (all_keys item ++ all_keys (PList l))%list.
Proof. reflexivity. Qed.

(** Nothing to find: when no key of the tree satisfies the predicate, the
    search yields [None]. *)
Lemma _search_no_key (obj : pyval) (p : string -> bool) :
  Forall (fun k => p k = false) (all_keys obj) -> _search obj p = PNone.
Proof.
  induction obj as [| | | | |l IH|d IH] using pyval_nested_ind; try reflexivity.
  - induction IH as [|item l Hitem _ IHl]; intros Hk; [reflexivity|].
    rewrite all_keys_list_cons in Hk. apply Forall_app in Hk as [H1 H2].
    rewrite _search_list_cons, (Hitem H1). exact (IHl H2).
  - induction IH as [|[k v] d Hv _ IHd]; intros Hk; [reflexivity|].
    simpl in Hv. rewrite all_keys_dict_cons in Hk.
    apply Forall_cons in Hk as [Hk Hrest].
    apply Forall_app in Hrest as [H1 H2].
    rewrite _search_dict_cons, Hk, (Hv H1). exact (IHd H2).
Qed.

(** Entries that neither match nor contain a result are passed over. *)
Lemma _search_skip (pre rest : list (string * pyval)) (p : string -> bool) :
  Forall (fun kv => p kv.1 = false /\ _search kv.2 p = PNone) pre ->
  _search (PDict (pre ++ rest)%list) p = _search (PDict rest) p.
Proof.
  induction 1 as [|[k v] pre [Hk Hv] _ IH]; [reflexivity|].
  simpl in Hk, Hv. change (((k, v) :: pre) ++ rest)%list with ((k, v) :: (pre ++ rest))%list.
  rewrite _search_dict_cons, Hk, Hv. exact IH.
Qed.

(** C2, as amended: the search is depth-first in pre-order: each key of a
    mapping is tested and then its value is searched before the next
    sibling key is looked at.  When the entries before [k] neither match
    nor contain a result, a matching [k] yields its value, and a
    non-matching [k] whose value contains a (non-null) result yields that
    nested result, whatever keys follow; so a match nested in an earlier
    sibling wins over a later shallow one, and
    [{"a": {"beds": 2}, "bedrooms": 3}] yields 2. *)
Theorem _search_depth_first (pre post : list (string * pyval)) (k : string)
    (v : pyval) (p : string -> bool) :
  Forall (fun kv => p kv.1 = false /\ _search kv.2 p = PNone) pre ->
  (p k = true -> _search (PDict (pre ++ (k, v) :: post)%list) p = v) /\
  (p k = false -> _search v p <> PNone ->
   _search (PDict (pre ++ (k, v) :: post)%list) p = _search v p) /\
  _search_keys nested_beds beds_keys = PInt 2.
Proof.
  intros Hpre. rewrite (_search_skip pre _ p Hpre), _search_dict_cons.
  repeat split.
  - now intros ->.
  - intros -> Hv. destruct (_search v p); congruence.
Qed.

Lemma _search_depth_first_witness :
  _search (PDict ([] ++ ("a", PDict [("beds", PInt 2)])
                     :: [("bedrooms", PInt 3)])%list)
          (fun k => String.eqb k "beds" || String.eqb k "bedrooms")
  = _search (PDict [("beds", PInt 2)])
            (fun k => String.eqb k "beds" || String.eqb k "bedrooms").
Proof.
  refine (proj1 (proj2 (_search_depth_first [] [("bedrooms", PInt 3)] "a"
            (PDict [("beds", PInt 2)])
            (fun k => String.eqb k "beds" || String.eqb k "bedrooms") _)) _ _).
  - constructor.
  - reflexivity.
  - vm_compute. discriminate.
Defined.

(** C2 fails as stated: on [{"a": {"beds": 2}, "bedrooms": 3}] the
    beds-family search returns the nested 2, not the shallow 3. *)
Lemma _search_shallow_key_loses :
  _search_keys nested_beds beds_keys = PInt 2 /\
  _search_keys nested_beds beds_keys <> PInt 3.
Proof. split; [reflexivity | vm_compute; discriminate]. Qed.

(** C9: a matching key bound to null is indistinguishable from no match.
    When the first key in traversal order that satisfies the predicate is
    a direct key of the mapping and is bound to [None], the search yields
    [None], whatever the later sibling keys hold. *)
Theorem _search_null_value_is_absent (pre post : list (string * pyval))
    (k : string) (p : string -> bool) :
  Forall (fun k' => p k' = false) (all_keys (PDict pre)) ->
  p k = true ->
  _search (PDict (pre ++ (k, PNone) :: post)%list) p = PNone.
Proof.
  intros Hpre Hk.
  assert (Forall (fun kv => p kv.1 = false /\ _search kv.2 p = PNone) pre) as H.
  { induction pre as [|[k' v'] pre IH]; constructor.
    - rewrite all_keys_dict_cons in Hpre.
      apply Forall_cons in Hpre as [Hk' Hrest].
      apply Forall_app in Hrest as [Hv' _].
      split; [exact Hk' | now apply _search_no_key].
    - apply IH. rewrite all_keys_dict_cons in Hpre.
      apply Forall_cons in Hpre as [_ Hrest].
      now apply Forall_app in Hrest as [_ Hrest]. }
  now rewrite (_search_skip pre _ p H), _search_dict_cons, Hk.
Qed.

Lemma _search_null_value_is_absent_witness :
  _search_keys (PDict [("beds", PNone); ("bedrooms", PInt 3)]) beds_keys
  = PNone.
Proof.
  refine (_search_null_value_is_absent [] [("bedrooms", PInt 3)] "beds"
            (fun k => bool_decide (strip_key k ∈
               (list_to_set (List.map py_lower beds_keys) : gset string))) _ _).
  - constructor.
  - vm_compute. reflexivity.
Defined.

(** ** Key normalization in [_search_keys] *)

Lemma _search_keys_pred (obj : pyval) (keys : list string) :
  _search_keys obj keys = _search obj (keys_pred keys).
Proof. reflexivity. Qed.











(** ** Lot sizes *)

Example half_literal : py_float_of_str "0.5" = Ok half.
Proof. reflexivity. Qed.

(** C4: lot-size extraction cross-derives the missing unit with the
    constant 43560.  When the lot-sqft search parses to 21780 and the
    acreage search to nothing, the acreage is 0.5; when the acreage search
    parses to 0.5 and the lot-sqft search to nothing, the sqft is 21780;
    when both parse to nothing, both outputs stay absent. *)
Theorem parse_lot_sizes_cross_derivation (d : pyval) :
  (parse_int (_search d lot_sqft_pred) = Ok (Some 21780%Z) ->
   parse_float (_search d lot_acres_pred) = Ok None ->
   parse_lot_sizes d = Ok (Some 21780%Z, Some half)) /\
  (parse_int (_search d lot_sqft_pred) = Ok None ->
   parse_float (_search d lot_acres_pred) = Ok (Some half) ->
   parse_lot_sizes d = Ok (Some 21780%Z, Some half)) /\
  (parse_int (_search d lot_sqft_pred) = Ok None ->
   parse_float (_search d lot_acres_pred) = Ok None ->
   parse_lot_sizes d = Ok (None, None)).
Proof.
  repeat split; intros Hs Ha; unfold parse_lot_sizes; rewrite Hs, Ha;
    reflexivity.
Qed.

Lemma parse_lot_sizes_cross_derivation_witness :
  parse_lot_sizes (PDict [("lotSizeSqft", PStr "21,780 sqft")])
    = Ok (Some 21780%Z, Some half) /\
  parse_lot_sizes (PDict [("lot_acres", PStr "0.5")])
    = Ok (Some 21780%Z, Some half) /\
  parse_lot_sizes (PDict [("beds", PInt 3)]) = Ok (None, None).
Proof.
  split; [|split].
  - apply (proj1 (parse_lot_sizes_cross_derivation _)); reflexivity.
  - apply (proj1 (proj2 (parse_lot_sizes_cross_derivation _))); reflexivity.
  - apply (proj2 (proj2 (parse_lot_sizes_cross_derivation _))); reflexivity.
Defined.

(** ** The row assembler *)

(** One extractor call of [to_listing_row]: either it returned and the
    assembler goes on, or it raised and the goal is settled. *)
Ltac run_extractor call :=
  destruct call; [cbn [bind] | first [discriminate | reflexivity]].

Section AssemblerProperties.

Variable str_of_object : pyval -> string.

(** What a returned row holds in [city] and [state]. *)
Lemma to_listing_row_city_state (d : pyval) (url : string)
    (vocab : vocabulary) (fallbacks : gmap string (option string))
    (row : ListingRow) :
  to_listing_row str_of_object d url vocab fallbacks = Ok row ->
  city row = or_fallback (extracted_city str_of_object d) fallbacks "city" /\
  state row = or_fallback (extracted_state str_of_object d) fallbacks "state".
Proof.
  unfold to_listing_row, extracted_city, extracted_state.
  run_extractor (parse_lot_sizes d).
  destruct (parse_address_block str_of_object d) as [[[addr c] s] z].
  run_extractor (parse_bedrooms d). run_extractor (parse_bathrooms d).
  run_extractor (parse_rooms_total d). run_extractor (parse_sqft d).
  run_extractor (parse_year_built d). run_extractor (parse_price d).
  intros [= <-]. split; reflexivity.
Qed.

(** The assembler fails exactly when a numeric extractor does, with the
    exception of the first that fails; everything else is total. *)
Lemma to_listing_row_outcome (d : pyval) (url : string)
    (vocab : vocabulary) (fallbacks : gmap string (option string)) :
  raised (to_listing_row str_of_object d url vocab fallbacks)
  = numeric_failure d.
Proof.
  unfold to_listing_row, numeric_failure.
  run_extractor (parse_lot_sizes d).
  destruct (parse_address_block str_of_object d) as [[[addr c] s] z].
  run_extractor (parse_bedrooms d). run_extractor (parse_bathrooms d).
  run_extractor (parse_rooms_total d). run_extractor (parse_sqft d).
  run_extractor (parse_year_built d). run_extractor (parse_price d).
  reflexivity.
Qed.

Lemma raised_Some {A : Type} (r : result A) (e : exn) :
  raised r = Some e -> r = Raise e.
Proof. destruct r; simpl; congruence. Qed.

Lemma raised_None {A : Type} (r : result A) :
  raised r = None ↔ exists a, r = Ok a.
Proof.
  destruct r; simpl; split; eauto; try discriminate.
  intros [a H]. discriminate.
Qed.

Lemma or_fallback_spec (extracted : string)
    (fallbacks : gmap string (option string)) (key : string) :
  (extracted = "" ->
   or_fallback extracted fallbacks key = default (Some "") (fallbacks !! key)) /\
  (extracted <> "" -> or_fallback extracted fallbacks key = Some extracted).
Proof.
  unfold or_fallback. destruct extracted; simpl; split; congruence.
Qed.

Lemma no_field_Forall (keys : list string) (d : pyval) :
  no_field keys d = true ↔
  Forall (fun k => keys_pred keys k = false) (all_keys d).
Proof.
  unfold no_field. rewrite forallb_forall, Forall_forall. split.
  - intros H k Hk. apply negb_true_iff, H. now apply list_elem_of_In.
  - intros H k Hk. apply negb_true_iff, H. now apply list_elem_of_In.
Qed.

Lemma all_keys_search (obj : pyval) (p : string -> bool) (k : string) :
  k ∈ all_keys (_search obj p) -> k ∈ all_keys obj.
Proof.
  induction obj as [| | | | |l IH|d IH] using pyval_nested_ind;
    try (simpl; intros H; now apply elem_of_nil in H).
  - induction IH as [|item l Hitem _ IHl];
      [simpl; intros H; now apply elem_of_nil in H|].
    rewrite _search_list_cons, all_keys_list_cons, elem_of_app.
    destruct (_search item p) eqn:E; auto.
  - induction IH as [|[k' v] d Hv _ IHd];
      [simpl; intros H; now apply elem_of_nil in H|].
    simpl in Hv.
    rewrite _search_dict_cons, all_keys_dict_cons, elem_of_cons, elem_of_app.
    destruct (p k'); [auto|].
    destruct (_search v p) eqn:E; auto.
Qed.

Lemma no_field_search (keys : list string) (obj : pyval) (p : string -> bool) :
  no_field keys obj = true -> no_field keys (_search obj p) = true.
Proof.
  rewrite !no_field_Forall, !Forall_forall. intros H k Hk.
  apply H. revert Hk. apply all_keys_search.
Qed.

Lemma no_field_search_keys (keys : list string) (obj : pyval) :
  no_field keys obj = true -> _search_keys obj keys = PNone.
Proof.
  intros H. rewrite _search_keys_pred.
  now apply _search_no_key, no_field_Forall.
Qed.

(** Without a field of the family, the address block yields the empty
    string for it. *)
Lemma extracted_city_absent (d : pyval) :
  no_field city_keys d = true -> extracted_city str_of_object d = "".
Proof.
  intros H. unfold extracted_city, parse_address_block.
  pose proof (no_field_search city_keys d (keys_pred ["address"]) H) as Ha.
  rewrite <- _search_keys_pred in Ha.
  unfold address_parts.
  destruct (_search_keys d ["address"]) eqn:E;
    try rewrite (no_field_search_keys _ _ Ha);
    unfold top_level; simpl; rewrite (no_field_search_keys _ _ H);
    reflexivity.
Qed.

Lemma extracted_state_absent (d : pyval) :
  no_field state_keys d = true -> extracted_state str_of_object d = "".
Proof.
  intros H. unfold extracted_state, parse_address_block.
  pose proof (no_field_search state_keys d (keys_pred ["address"]) H) as Ha.
  rewrite <- _search_keys_pred in Ha.
  unfold address_parts.
  destruct (_search_keys d ["address"]) eqn:E;
    try rewrite (no_field_search_keys _ _ Ha);
    unfold top_level; simpl; rewrite (no_field_search_keys _ _ H);
    reflexivity.
Qed.

(** X24: how the caller's city and state fallbacks reach a returned row.
    A row is returned exactly when no numeric coercion raises, and for
    every returned row: [city] is the fallback
    entry (the empty string when the mapping has none) when the extracted
    city is empty, and the extracted city otherwise; the same for [state].
    In particular, when the candidate has no city and no state field
    anywhere and the fallbacks map ["city"] to ["FallbackVille"] and
    ["state"] to ["CA"], the row has [city = "FallbackVille"] and
    [state = "CA"]. *)
Theorem to_listing_row_fallbacks (d : pyval) (url : string)
    (vocab : vocabulary) (fallbacks : gmap string (option string)) :
  ((exists row, to_listing_row str_of_object d url vocab fallbacks = Ok row)
   ↔ numeric_failure d = None) /\
  forall row : ListingRow,
    to_listing_row str_of_object d url vocab fallbacks = Ok row ->
    ((extracted_city str_of_object d = "" ->
      city row = default (Some "") (fallbacks !! "city")) /\
     (extracted_city str_of_object d <> "" ->
      city row = Some (extracted_city str_of_object d)) /\
     (extracted_state str_of_object d = "" ->
      state row = default (Some "") (fallbacks !! "state")) /\
     (extracted_state str_of_object d <> "" ->
      state row = Some (extracted_state str_of_object d))) /\
    (no_field city_keys d = true -> no_field state_keys d = true ->
     fallbacks !! "city" = Some (Some "FallbackVille") ->
     fallbacks !! "state" = Some (Some "CA") ->
     city row = Some "FallbackVille" /\ state row = Some "CA").
Proof.
  split.
  { rewrite <- (to_listing_row_outcome d url vocab fallbacks).
    symmetry. apply raised_None. }
  intros row Hrow. apply to_listing_row_city_state in Hrow as [Hc Hs].
  destruct (or_fallback_spec (extracted_city str_of_object d) fallbacks "city")
    as [Hc0 Hc1].
  destruct (or_fallback_spec (extracted_state str_of_object d) fallbacks "state")
    as [Hs0 Hs1].
  split.
  - repeat split; intros E; rewrite ?Hc, ?Hs; auto.
  - intros Hnc Hns Hfc Hfs.
    rewrite Hc, Hs, (Hc0 (extracted_city_absent d Hnc)),
      (Hs0 (extracted_state_absent d Hns)), Hfc, Hfs.
    split; reflexivity.
Qed.

(** C10: an explicitly null fallback is kept.  When the fallbacks mapping
    binds ["city"] (or ["state"]) to [None] and the extracted city (or
    state) is the empty string, the returned row carries [None] in that
    field, not the empty string of the schema. *)
Theorem to_listing_row_null_fallback (d : pyval) (url : string)
    (vocab : vocabulary) (fallbacks : gmap string (option string))
    (row : ListingRow) :
  to_listing_row str_of_object d url vocab fallbacks = Ok row ->
  (extracted_city str_of_object d = "" -> fallbacks !! "city" = Some None ->
   city row = None) /\
  (extracted_state str_of_object d = "" -> fallbacks !! "state" = Some None ->
   state row = None).
Proof.
  intros Hrow. apply to_listing_row_city_state in Hrow as [Hc Hs].
  split; intros E Hf.
  - rewrite Hc, (proj1 (or_fallback_spec _ fallbacks "city") E), Hf.
    reflexivity.
  - rewrite Hs, (proj1 (or_fallback_spec _ fallbacks "state") E), Hf.
    reflexivity.
Qed.

(** C3 fails on the code: numeric coercion lets exceptions escape.  An
    integer beyond the range of a double makes [float(val)] raise inside
    [parse_float]; a NaN, an infinity or a digit string too long for a
    double makes [int(num)] raise inside [parse_int]; nothing in
    [to_listing_row] catches them. *)
Theorem to_listing_row_raises (url : string) (vocab : vocabulary)
    (fallbacks : gmap string (option string)) :
  to_listing_row str_of_object (PDict [("beds", PInt (10 ^ 400))])
    url vocab fallbacks = Raise OverflowError /\
  to_listing_row str_of_object (PDict [("price", PFloat S754_nan)])
    url vocab fallbacks = Raise ValueError /\
  to_listing_row str_of_object
    (PDict [("price", PFloat (S754_infinity false))])
    url vocab fallbacks = Raise OverflowError /\
  parse_float (PInt (10 ^ 400)) = Raise OverflowError /\
  parse_int (PFloat S754_nan) = Raise ValueError.
Proof.
  split; [|split; [|split; [|split]]].
  1-3: apply raised_Some; rewrite to_listing_row_outcome.
  all: vm_compute; reflexivity.
Qed.

(** C8 fails on the code: a candidate with no city and no state field
    anywhere need not yield a row.  The candidate [{"beds": 10**400}] has
    neither field, the fallbacks map ["city"] to ["FallbackVille"] and
    ["state"] to ["CA"], and [to_listing_row] raises [OverflowError] out of
    [parse_float] (the defect of C3) before the fallbacks are looked at:
    no row with [city = "FallbackVille"] and [state = "CA"] is returned. *)
Theorem to_listing_row_no_city_raises (url : string) (vocab : vocabulary) :
  no_field city_keys (PDict [("beds", PInt (10 ^ 400))]) = true /\
  no_field state_keys (PDict [("beds", PInt (10 ^ 400))]) = true /\
  sample_fallbacks !! "city" = Some (Some "FallbackVille") /\
  sample_fallbacks !! "state" = Some (Some "CA") /\
  to_listing_row str_of_object (PDict [("beds", PInt (10 ^ 400))])
    url vocab sample_fallbacks = Raise OverflowError /\
  ~ exists row : ListingRow,
      to_listing_row str_of_object (PDict [("beds", PInt (10 ^ 400))])
        url vocab sample_fallbacks = Ok row /\
      city row = Some "FallbackVille" /\ state row = Some "CA".
Proof.
  assert (to_listing_row str_of_object (PDict [("beds", PInt (10 ^ 400))])
            url vocab sample_fallbacks = Raise OverflowError) as E.
  { apply raised_Some. rewrite to_listing_row_outcome.
    vm_compute. reflexivity. }
  split; [vm_compute; reflexivity|].
  split; [vm_compute; reflexivity|].
  split; [vm_compute; reflexivity|].
  split; [vm_compute; reflexivity|].
  split; [exact E|].
  intros (row & Hrow & _). rewrite E in Hrow. discriminate.
Qed.

End AssemblerProperties.

(** The end-to-end example of the specification: 3.0 and 2.5 are the
    doubles [6755399441055744 * 2^-51] and [5629499534213120 * 2^-51]. *)
Example end_to_end :
  to_listing_row str_of_object_blank
    (PDict [("address", PDict [("line1", PStr "123 Main St");
                               ("city", PStr "Springfield");
                               ("state", PStr "IL"); ("zip", PStr "62701")]);
            ("beds", PInt 3); ("baths", PStr "2.5");
            ("sqft", PStr "1,234 sqft"); ("lot_acres", PStr "0.5");
            ("price", PStr "$350,000"); ("yearBuilt", PInt 1999);
            ("propertyType", PStr "Single Family");
            ("amenities", PStr "garage, pool");
            ("remarks", PStr "Solar panels installed.")])
    "http://example.com/1" sample_vocab sample_fallbacks
  = Ok {| source_url := "http://example.com/1"; mls_id := "";
          address := "123 Main St"; city := Some "Springfield";
          state := Some "IL"; zip := "62701";
          beds := Some (S754_finite false 6755399441055744 (-51));
          baths := Some (S754_finite false 5629499534213120 (-51));
          rooms_total := None; sqft := Some 1234%Z;
          year_built := Some 1999%Z; lot_size_sqft := Some 21780%Z;
          lot_size_acres := Some half; property_type := "Single Family";
          price := Some 350000%Z; amenities := ["garage"; "pool"; "solar"];
          description := "Solar panels installed." |}.
Proof. vm_compute. reflexivity. Qed.

Lemma to_listing_row_fallbacks_witness :
  exists row,
    to_listing_row str_of_object_blank sample_candidate "http://example.com/1"
      sample_vocab sample_fallbacks = Ok row /\
    city row = Some "FallbackVille" /\ state row = Some "CA".
Proof.
  eexists. split; [vm_compute; reflexivity|].
  refine (proj2 (proj2 (to_listing_row_fallbacks str_of_object_blank
            sample_candidate "http://example.com/1" sample_vocab
            sample_fallbacks) _ _) _ _ _ _).
  all: vm_compute; reflexivity.
Defined.

Lemma to_listing_row_null_fallback_witness :
  exists row,
    to_listing_row str_of_object_blank sample_candidate "http://example.com/1"
      sample_vocab null_fallbacks = Ok row /\
    city row = None /\ state row = None.
Proof.
  eexists. split; [vm_compute; reflexivity|].
  pose proof (to_listing_row_null_fallback str_of_object_blank sample_candidate
            "http://example.com/1" sample_vocab null_fallbacks _
            ltac:(vm_compute; reflexivity)) as [Hc Hs].
  split; [apply Hc | apply Hs]; vm_compute; reflexivity.
Defined.

(** ** The normal form computed by [_sanitize] *)


Lemma word_not_space (c : ascii) : is_word c = true -> is_space c = false.
Proof. destruct c as [[] [] [] [] [] [] [] []]; vm_compute; congruence. Qed.

Lemma blank_char_word (c : ascii) : is_word c = true -> blank_char c = c.
Proof. unfold blank_char. now intros ->. Qed.

Lemma blank_char_space (c : ascii) :
  is_word c = false -> is_space (blank_char c) = true.
Proof.
  unfold blank_char. intros ->. simpl.
  destruct (is_space c) eqn:E; [exact E | reflexivity].
Qed.

Lemma lstrip_collapse_true (t : string) :
  lstrip (collapse_ws true t) = collapse_ws true t.
Proof.
  induction t as [|c t IH]; [reflexivity|]. simpl.
  destruct (is_space c) eqn:E; [exact IH|]. simpl. now rewrite E.
Qed.

Lemma lstrip_collapse_false (t : string) :
  lstrip (collapse_ws false t) = collapse_ws true t.
Proof.
  destruct t as [|c t]; [reflexivity|]. simpl.
  destruct (is_space c) eqn:E; simpl.
  - apply lstrip_collapse_true.
  - now rewrite E.
Qed.

Lemma rstrip_cons_space (c : ascii) (t : string) :
  is_space c = true ->
  rstrip (String c t) = if is_empty (rstrip t) then "" else String c (rstrip t).
Proof. simpl. now intros ->. Qed.

Lemma rstrip_cons_word (c : ascii) (t : string) :
  is_space c = false -> rstrip (String c t) = String c (rstrip t).
Proof. simpl. now intros ->. Qed.

Lemma runs_nonempty (s : string) :
  Forall (fun w => is_empty w = false) (runs s).2.
Proof.
  induction s as [|c s IH]; simpl; [constructor|].
  destruct (runs s) as [h t]. simpl in IH.
  destruct (is_word c); simpl; [exact IH|].
  destruct (is_empty h) eqn:E; [exact IH|]. now constructor.
Qed.

Lemma is_empty_append (a b : string) :
  is_empty (a ++ b) = is_empty a && is_empty b.
Proof. destruct a; reflexivity. Qed.

Lemma is_empty_unwords (ws : list string) :
  Forall (fun w => is_empty w = false) ws ->
  is_empty (unwords ws) = match ws with [] => true | _ => false end.
Proof.
  destruct 1 as [|w ws Hw _]; [reflexivity|].
  simpl. now rewrite is_empty_append, Hw.
Qed.

(** The text after the two substitutions and [rstrip], by the runs of the
    input; [in_run] tells whether a separator has just been written. *)
Lemma rstrip_collapse_runs (u : string) :
  rstrip (collapse_ws false (sub_nonword u)) = (runs u).1 ++ spaced (runs u).2
  /\ rstrip (collapse_ws true (sub_nonword u)) = unwords (word_runs u).
Proof.
  unfold word_runs, sub_nonword.
  induction u as [|c u [IHf IHt]]; [split; reflexivity|].
  pose proof (runs_nonempty u) as Hne.
  simpl str_map. simpl runs. destruct (runs u) as [h t]. simpl in IHf, IHt, Hne.
  destruct (is_word c) eqn:Hw.
  - rewrite (blank_char_word c Hw). cbn [collapse_ws].
    rewrite (word_not_space c Hw), (rstrip_cons_word c _ (word_not_space c Hw)).
    rewrite IHf. split; reflexivity.
  - pose proof (blank_char_space c Hw) as Hs. cbn [collapse_ws]. rewrite Hs.
    rewrite rstrip_cons_space by reflexivity. rewrite IHt. simpl fst. simpl snd.
    split; [|reflexivity].
    destruct (is_empty h) eqn:Eh.
    + rewrite (is_empty_unwords t Hne). destruct t; reflexivity.
    + simpl. rewrite is_empty_append, Eh. reflexivity.
Qed.

Lemma _sanitize_unwords (s : string) :
  _sanitize s = unwords (word_runs (py_lower s)).
Proof.
  unfold _sanitize, strip, sub_spaces.
  rewrite lstrip_collapse_false. apply rstrip_collapse_runs.
Qed.






(** ** Whole-word matching in the description *)

Lemma literal_at_ends (pat text rest : string) (prev last : option ascii) :
  pat <> "" -> literal_at prev pat text = Some (last, rest) ->
  first_char text = first_char pat /\ last = last_char pat.
Proof.
  revert prev text. induction pat as [|p pat IH]; intros prev text Hne H;
    [congruence|].
  simpl in H. destruct text as [|c text]; [discriminate|].
  destruct (Ascii.eqb_spec p c) as [->|]; [|discriminate].
  split; [reflexivity|].
  destruct pat as [|q pat]; [simpl in H; now injection H as <- <-|].
  now apply (IH (Some c) text).
Qed.

Lemma word_match_inside (prev : option ascii) (syn text : string) :
  wordb (first_char syn) = true -> wordb (last_char syn) = true ->
  match literal_at prev syn text with
  | Some (_, rest) => wordb prev || wordb (first_char rest)
  | None => true
  end = true ->
  word_match_at prev syn text = false.
Proof.
  intros Hf Hl H. unfold word_match_at.
  destruct (literal_at prev syn text) as [[last rest]|] eqn:E;
    [|apply andb_false_r].
  assert (syn <> "") as Hne by (destruct syn; [discriminate | congruence]).
  destruct (literal_at_ends syn text rest prev last Hne E) as [-> ->].
  unfold boundary. rewrite Hf, Hl.
  destruct (wordb prev), (wordb (first_char rest)); simpl in *; congruence.
Qed.

Lemma word_search_inside (prev : option ascii) (syn text : string) :
  wordb (first_char syn) = true -> wordb (last_char syn) = true ->
  inside_words_from prev syn text = true ->
  word_search_from prev syn text = false.
Proof.
  intros Hf Hl. revert prev.
  induction text as [|c text IH]; intros prev H.
  - simpl in H. apply andb_true_iff in H as [H _].
    simpl. rewrite orb_false_r. now apply word_match_inside.
  - cbn [inside_words_from] in H. apply andb_true_iff in H as [H1 H2].
    cbn [word_search_from]. rewrite (IH _ H2), orb_false_r.
    now apply word_match_inside.
Qed.

(** C5: the description is scanned for whole words only.  When every
    occurrence of an index entry in the sanitized description lies inside a
    larger word (as ["pool"] in ["carpool lane"]), the word-boundary search
    for that entry fails, so every label of the result comes from a raw
    token or from another entry found in the description. *)
Theorem description_scan_whole_words (raw_tokens : list string)
    (vocab : vocabulary) (desc syn label : string) :
  wordb (first_char syn) = true -> wordb (last_char syn) = true ->
  only_inside_words syn (_sanitize desc) = true ->
  re_search_word syn (_sanitize desc) = false /\
  (label ∈ normalize_amenities raw_tokens vocab (Some desc) ->
   (exists token, token ∈ raw_tokens /\
                  _reverse_vocab vocab !! _sanitize token = Some label) \/
   (exists syn', syn' <> syn /\
                 _reverse_vocab vocab !! syn' = Some label /\
                 re_search_word syn' (_sanitize desc) = true)).
Proof.
  intros Hf Hl Hin.
  assert (re_search_word syn (_sanitize desc) = false) as Hno
    by now apply word_search_inside.
  split; [exact Hno|].
  intros H. apply elem_of_normalize_amenities in H as [H|H]; [now left|].
  destruct H as (d & syn' & [= <-] & _ & Hr & Hs).
  right. exists syn'. repeat split; [|exact Hr|exact Hs].
  intros ->. congruence.
Qed.

Lemma description_scan_whole_words_witness :
  re_search_word "pool" (_sanitize "Near the carpool lane.") = false.
Proof.
  apply (proj1 (description_scan_whole_words [] sample_vocab
                  "Near the carpool lane." "pool" "pool"
                  eq_refl eq_refl eq_refl)).
Defined.

Example carpool_lane :
  normalize_amenities [] sample_vocab (Some "Carpool lane; solar panels.")
  = ["solar"].
Proof. vm_compute. reflexivity. Qed.

(** * Further properties *)

(** ** Listing detection *)

Lemma walk_dict (d : list (string * pyval)) :
  walk (PDict d) =
  ((if looks_like_listing d then [PDict d] else []) ++
   flat_map (fun kv => walk kv.2) d)%list.
Proof.
  simpl. f_equal. induction d as [|[k v] d IH]; [reflexivity|].
  simpl. now rewrite IH.
Qed.

Lemma walk_list (l : list pyval) : walk (PList l) = flat_map walk l.
Proof.
  first [reflexivity
        | simpl; induction l as [|x l IH]; [reflexivity|]; simpl;
          now rewrite IH].
Qed.

Lemma nodes_dict (d : list (string * pyval)) :
  nodes (PDict d) = PDict d :: flat_map (fun kv => nodes kv.2) d.
Proof.
  simpl. f_equal. induction d as [|[k v] d IH]; [reflexivity|].
  simpl. now rewrite IH.
Qed.

Lemma nodes_list (l : list pyval) :
  nodes (PList l) = PList l :: flat_map nodes l.
Proof.
  first [reflexivity
        | simpl; f_equal; induction l as [|x l IH]; [reflexivity|]; simpl;
          now rewrite IH].
Qed.

Lemma walk_filter_nodes (v : pyval) :
  walk v = List.filter is_listing_node (nodes v).
Proof.
  induction v as [| | | | |l IH|d IH] using pyval_nested_ind; try reflexivity.
  - rewrite walk_list, nodes_list. cbn [List.filter is_listing_node].
    induction IH as [|x l Hx _ IHl]; [reflexivity|].
    cbn [flat_map]. now rewrite List.filter_app, Hx, IHl.
  - rewrite walk_dict, nodes_dict. cbn [List.filter is_listing_node].
    assert (flat_map (fun kv => walk kv.2) d =
            List.filter is_listing_node (flat_map (fun kv => nodes kv.2) d)) as E.
    { induction IH as [|kv d Hkv _ IHd]; [reflexivity|].
      cbn [flat_map]. now rewrite List.filter_app, Hkv, IHd. }
    rewrite E. now destruct (looks_like_listing d).
Qed.

Lemma meets_iff (keys family : gset string) :
  keys ∩ family ≠ ∅ ↔ exists x, x ∈ keys /\ x ∈ family.
Proof.
  split.
  - intros H. apply set_choose_L in H as [x Hx].
    apply elem_of_intersection in Hx. now exists x.
  - intros (x & H1 & H2) E.
    assert (x ∈ keys ∩ family) as Hx by now apply elem_of_intersection.
    rewrite E in Hx. now apply elem_of_empty in Hx.
Qed.

Lemma looks_like_listing_iff (d : list (string * pyval)) :
  looks_like_listing d = true ↔
  (exists k, k ∈ List.map fst d /\ py_lower k ∈ _ADDR_KEYS) /\
  (exists k, k ∈ List.map fst d /\ py_lower k ∈ _LISTING_KEYS).
Proof.
  unfold looks_like_listing. cbv zeta.
  rewrite andb_true_iff, !bool_decide_eq_true, !meets_iff.
  assert (forall family : gset string,
    (exists x, x ∈ (list_to_set (List.map (fun kv : string * pyval => py_lower kv.1) d)
                     : gset string) /\ x ∈ family) ↔
    (exists k, k ∈ List.map fst d /\ py_lower k ∈ family)) as H.
  { intros family. split.
    - intros (x & Hx & Hf). apply elem_of_list_to_set in Hx.
      apply list_elem_of_In, in_map_iff in Hx as ([k v] & <- & Hin).
      exists k. split; [|exact Hf].
      apply list_elem_of_In, in_map_iff. now exists (k, v).
    - intros (k & Hk & Hf). exists (py_lower k). split; [|exact Hf].
      apply elem_of_list_to_set.
      apply list_elem_of_In, in_map_iff in Hk as ([k' v] & <- & Hin).
      apply list_elem_of_In, in_map_iff. now exists (k', v). }
  now rewrite !H.
Qed.

(** X1: listing detection returns exactly the mapping nodes of the JSON
    value, at any depth and in traversal order (a mapping before the
    mappings nested in it), that have both a key of the address family and
    a key of the listing family, keys compared in lower case. *)
Theorem extract_listings_characterization (url : string) (obj x : pyval) :
  extract_listings_from_json url obj
  = List.filter is_listing_node (nodes obj) /\
  (x ∈ extract_listings_from_json url obj ↔
   x ∈ nodes obj /\
   exists d, x = PDict d /\
     (exists k, k ∈ List.map fst d /\ py_lower k ∈ _ADDR_KEYS) /\
     (exists k, k ∈ List.map fst d /\ py_lower k ∈ _LISTING_KEYS)).
Proof.
  unfold extract_listings_from_json. rewrite walk_filter_nodes.
  split; [reflexivity|].
  rewrite list_elem_of_In, List.filter_In, <- list_elem_of_In.
  split.
  - intros [Hn Hl]. split; [exact Hn|].
    destruct x; try discriminate. exists d. split; [reflexivity|].
    now apply looks_like_listing_iff.
  - intros [Hn (d & -> & H)]. split; [exact Hn|].
    now apply looks_like_listing_iff.
Qed.

(** ** The deduplicating writer *)

Lemma write_seen (w : CSVWriter) (row : ListingRow) (row_io seen_io : bool) :
  _key row ∈ seen (write w row row_io seen_io).2 /\
  forall key, key ∈ seen w -> key ∈ seen (write w row row_io seen_io).2.
Proof.
  unfold write. cbv zeta. case_bool_decide as H.
  - split; [exact H | auto].
  - destruct row_io, seen_io, (seen_file w); simpl;
      (split; [apply elem_of_union; left; now apply elem_of_singleton|]);
      intros key Hk; apply elem_of_union; now right.
Qed.

(** X2: a listing whose identity key [(address, city, state, zip,
    source_url)] has been passed to [write] (or was already seen) is
    skipped: writing a second listing with the same key returns [False]
    and changes neither the file nor the set of seen keys, whatever its
    other fields hold and whatever the file operations of either call
    do. *)
Theorem write_duplicate_skipped (w : CSVWriter) (first second : ListingRow)
    (row_io seen_io row_io' seen_io' : bool) :
  _key second = _key first ->
  write (write w first row_io seen_io).2 second row_io' seen_io'
  = (Returned false, (write w first row_io seen_io).2).
Proof.
  intros E. destruct (write_seen w first row_io seen_io) as [Hin _].
  unfold write at 1. cbv zeta. rewrite E.
  now rewrite bool_decide_eq_true_2.
Qed.

Lemma writer_ok_write (w : CSVWriter) (row : ListingRow)
    (row_io seen_io : bool) :
  writer_ok w -> writer_ok (write w row row_io seen_io).2.
Proof.
  intros [Hnd Hseen]. unfold write. cbv zeta.
  case_bool_decide as H; [now split|].
  assert (NoDup (List.map _key (written_rows w ++ [row])%list)) as Hnd'.
  { rewrite List.map_app. simpl. apply NoDup_app.
    split; [exact Hnd|]. split; [|apply NoDup_singleton].
    intros key Hk Hk'. apply list_elem_of_singleton in Hk' as ->.
    apply list_elem_of_In, in_map_iff in Hk as (r & Er & Hr).
    apply H. rewrite <- Er. apply Hseen. now apply list_elem_of_In. }
  assert (forall r, r ∈ (written_rows w ++ [row])%list ->
                    _key r ∈ {[_key row]} ∪ seen w) as Hseen'.
  { intros r Hr. apply elem_of_app in Hr as [Hr|Hr].
    - apply elem_of_union. right. now apply Hseen.
    - apply list_elem_of_singleton in Hr as ->.
      apply elem_of_union. left. now apply elem_of_singleton. }
  destruct row_io, seen_io, (seen_file w); simpl; split; simpl;
    try exact Hnd; try exact Hnd'; try exact Hseen';
    intros r Hr; apply elem_of_union; right; now apply Hseen.
Qed.

(** What a call of [write] does to the files, by the way it ends. *)
Lemma write_cases (w : CSVWriter) (row : ListingRow) (row_io seen_io : bool) :
  (seen_file w = None -> seen_file (write w row row_io seen_io).2 = None) /\
  match (write w row row_io seen_io).1 with
  | Returned true =>
      length (written_rows (write w row row_io seen_io).2)
      = S (length (written_rows w))
  | Returned false => (write w row row_io seen_io).2 = w
  | IOFailed =>
      row_io && seen_io = false /\
      length (written_rows w)
      <= length (written_rows (write w row row_io seen_io).2) /\
      length (written_rows (write w row row_io seen_io).2)
      <= S (length (written_rows w)) /\
      (seen_file w = None ->
       length (written_rows (write w row row_io seen_io).2)
       = length (written_rows w))
  end.
Proof.
  unfold write. cbv zeta. case_bool_decide as H; [now split|].
  destruct row_io, seen_io, (seen_file w); simpl;
    rewrite ?List.length_app; simpl;
    repeat split; try lia; try discriminate; auto.
Qed.




(** X25: a listing on which [writerow] raised is lost for this writer.
    When the key is new and [writerow] raises, the call raises, the file
    keeps its rows and the key is in [seen] all the same; so writing the
    same listing again returns [False] and writes nothing, even when the
    file operations would now succeed. *)
Theorem write_raised_key_lost (w : CSVWriter) (row : ListingRow)
    (seen_io row_io' seen_io' : bool) :
  _key row ∉ seen w ->
  (write w row false seen_io).1 = IOFailed /\
  written_rows (write w row false seen_io).2 = written_rows w /\
  seen_file (write w row false seen_io).2 = seen_file w /\
  _key row ∈ seen (write w row false seen_io).2 /\
  write (write w row false seen_io).2 row row_io' seen_io'
  = (Returned false, (write w row false seen_io).2).
Proof.
  intros Hnew.
  assert (write w row false seen_io
          = (IOFailed, {| written_rows := written_rows w;
                          seen := {[_key row]} ∪ seen w;
                          seen_file := seen_file w |})) as E.
  { unfold write. cbv zeta. now rewrite bool_decide_eq_false_2. }
  rewrite E. cbn [fst snd written_rows seen seen_file].
  assert (_key row ∈ ({[_key row]} ∪ seen w : gset dedup_key)) as Hin
    by (apply elem_of_union; left; now apply elem_of_singleton).
  split; [reflexivity|]. split; [reflexivity|]. split; [reflexivity|].
  split; [exact Hin|].
  unfold write. cbv zeta. cbn [seen].
  now rewrite bool_decide_eq_true_2.
Qed.

(** ** [_process_har] *)

Lemma io_failures_app (write_io : nat -> bool * bool) (from n m : nat) :
  io_failures write_io from (n + m)
  = io_failures write_io from n + io_failures write_io (from + n) m.
Proof.
  unfold io_failures.
  now rewrite List.seq_app, List.filter_app, List.length_app.
Qed.

Lemma io_failures_one (write_io : nat -> bool * bool) (from : nat) :
  io_failures write_io from 1
  = if (write_io from).1 && (write_io from).2 then 0 else 1.
Proof.
  unfold io_failures. simpl.
  now destruct ((write_io from).1 && (write_io from).2).
Qed.

Lemma io_failures_none (write_io : nat -> bool * bool) (count : nat) :
  (forall k, k < count -> write_io k = (true, true)) ->
  io_failures write_io 0 count = 0.
Proof.
  intros H. unfold io_failures.
  assert (forall l : list nat, (forall k, In k l -> k < count) ->
            List.filter (fun k => negb ((write_io k).1 && (write_io k).2)) l
            = []) as E.
  { induction l as [|k l IH]; intros Hl; [reflexivity|].
    simpl. rewrite (H k (Hl k (or_introl eq_refl))). simpl.
    apply IH. intros k' Hk'. apply Hl. now right. }
  rewrite E; [reflexivity|].
  intros k Hk. apply List.in_seq in Hk. lia.
Qed.

Section ProcessHarProperties.

Variable str_of_object : pyval -> string.
Variable write_io : nat -> bool * bool.

Lemma fails_raise (raw : pyval) (url : string) (vocab : vocabulary)
    (fallbacks : gmap string (option string)) :
  fails raw = true ↔
  exists e, to_listing_row str_of_object raw url vocab fallbacks = Raise e.
Proof.
  unfold fails.
  rewrite <- (to_listing_row_outcome str_of_object raw url vocab fallbacks).
  destruct (to_listing_row str_of_object raw url vocab fallbacks); simpl;
    split; eauto; try discriminate.
  intros [e' H]. discriminate.
Qed.

Ltac balance_goal :=
  split; [lia|]; split; [lia|]; split; [lia|]; split; [lia|];
  split; [lia|]; split; [|auto];
  let Hn := fresh "Hn" in
  intros Hn; split; [auto|];
  repeat match goal with
         | H : seen_file _ = None -> _ |- _ => specialize (H Hn)
         end; lia.

Lemma process_raw_balanced (vocab : vocabulary)
    (fallbacks : gmap string (option string)) (url : string)
    (st : har_counts * CSVWriter) (raw : pyval) :
  exists raised_writes,
    balanced write_io st
      (process_raw str_of_object write_io vocab fallbacks url st raw)
      [raw] raised_writes.
Proof.
  destruct st as [n w]. unfold balanced, process_raw. cbn [List.filter].
  pose proof (fails_raise raw url vocab fallbacks) as Hf.
  cbn [fst snd length]. rewrite io_failures_one.
  destruct (to_listing_row str_of_object raw url vocab fallbacks) as [row|e].
  - assert (fails raw = false) as ->.
    { destruct (fails raw); [|reflexivity].
      destruct (proj1 Hf eq_refl) as [e He]. discriminate. }
    pose proof (writer_ok_write w row (write_io (candidates n)).1
                  (write_io (candidates n)).2) as Hok.
    pose proof (write_cases w row (write_io (candidates n)).1
                  (write_io (candidates n)).2) as [Hnone Hcase].
    destruct (write w row (write_io (candidates n)).1
                (write_io (candidates n)).2) as [[[]|] w']; cbn [fst snd] in *.
    + exists 0. simpl. balance_goal.
    + subst w'. exists 0. simpl. balance_goal.
    + destruct Hcase as (Hio & Hlo & Hhi & Hsame). rewrite Hio.
      exists 1. simpl. balance_goal.
  - assert (fails raw = true) as -> by (apply Hf; eauto).
    exists 0. simpl. balance_goal.
Qed.

Lemma balanced_trans (a b c : har_counts * CSVWriter) (r1 r2 : list pyval)
    (k1 k2 : nat) :
  balanced write_io a b r1 k1 -> balanced write_io b c r2 k2 ->
  balanced write_io a c (r1 ++ r2)%list (k1 + k2).
Proof.
  unfold balanced.
  intros (A1 & A2 & A3 & A4 & A5 & A6 & A7) (B1 & B2 & B3 & B4 & B5 & B6 & B7).
  rewrite List.filter_app, !List.length_app, io_failures_app.
  rewrite A1 in B3.
  split; [lia|]. split; [lia|]. split; [lia|]. split; [lia|].
  split; [lia|]. split; [|auto].
  intros Hn. destruct (A6 Hn) as [Hn' E1]. destruct (B6 Hn') as [Hn'' E2].
  split; [exact Hn''|lia].
Qed.

Lemma balanced_refl (a : har_counts * CSVWriter) :
  balanced write_io a a [] 0.
Proof.
  unfold balanced, io_failures. simpl. balance_goal.
Qed.

Lemma process_raws_balanced (vocab : vocabulary)
    (fallbacks : gmap string (option string)) (url : string)
    (raws : list pyval) (st : har_counts * CSVWriter) :
  exists raised_writes,
    balanced write_io st
      (fold_left (process_raw str_of_object write_io vocab fallbacks url)
                 raws st)
      raws raised_writes.
Proof.
  revert st. induction raws as [|raw raws IH]; intros st;
    [exists 0; apply balanced_refl|].
  simpl.
  destruct (process_raw_balanced vocab fallbacks url st raw) as [k1 H1].
  destruct (IH (process_raw str_of_object write_io vocab fallbacks url st raw))
    as [k2 H2].
  exists (k1 + k2).
  apply (balanced_trans st
           (process_raw str_of_object write_io vocab fallbacks url st raw) _
           [raw] raws k1 k2 H1 H2).
Qed.

Lemma process_bodies_balanced (vocab : vocabulary)
    (fallbacks : gmap string (option string))
    (bodies : list (string * pyval)) (st : har_counts * CSVWriter) :
  exists raised_writes,
    balanced write_io st
      (fold_left
         (fun (st : har_counts * CSVWriter) (body : string * pyval) =>
            fold_left
              (process_raw str_of_object write_io vocab fallbacks body.1)
              (extract_listings_from_json body.1 body.2) st)
         bodies st)
      (raw_listings bodies) raised_writes.
Proof.
  unfold raw_listings. revert st.
  induction bodies as [|body bodies IH]; intros st;
    [exists 0; apply balanced_refl|].
  cbn [fold_left List.map List.concat].
  destruct (process_raws_balanced vocab fallbacks body.1
              (extract_listings_from_json body.1 body.2) st) as [k1 H1].
  destruct (IH (fold_left
                  (process_raw str_of_object write_io vocab fallbacks body.1)
                  (extract_listings_from_json body.1 body.2) st)) as [k2 H2].
  exists (k1 + k2). exact (balanced_trans _ _ _ _ _ k1 k2 H1 H2).
Qed.

(** X4: [_process_har] accounts for every candidate, and a failing
    candidate never stops the batch.  [candidates] is the number of raw
    listings extracted from the bodies.  Each candidate is counted once:
    as written, as deduplicated, as failed in [to_listing_row], or as one
    whose [write] raised; the last are at most the candidates for which a
    file operation fails, so when none fails [candidates] is [written]
    plus [deduped] plus the candidates on which [to_listing_row] raises.
    The file gains at least [written] rows, at most one more for each
    raised [write], and exactly [written] rows when the writer has no
    [seen_path] file or no file operation fails.  The writer keeps its
    rows distinct by key. *)
Theorem _process_har_accounting (bodies : list (string * pyval))
    (writer : CSVWriter) (vocab : vocabulary)
    (fallbacks : gmap string (option string)) :
  let out := _process_har str_of_object write_io bodies writer vocab
               fallbacks in
  let raws := raw_listings bodies in
  candidates out.1 = length raws /\
  (exists raised_writes,
     candidates out.1
     = written out.1 + deduped out.1 + length (List.filter fails raws)
       + raised_writes /\
     raised_writes <= io_failures write_io 0 (length raws) /\
     length (written_rows writer) + written out.1
     <= length (written_rows out.2) /\
     length (written_rows out.2)
     <= length (written_rows writer) + written out.1 + raised_writes) /\
  ((forall k, k < length raws -> write_io k = (true, true)) ->
   candidates out.1
   = written out.1 + deduped out.1 + length (List.filter fails raws) /\
   length (written_rows out.2)
   = length (written_rows writer) + written out.1) /\
  (seen_file writer = None ->
   length (written_rows out.2)
   = length (written_rows writer) + written out.1) /\
  (writer_ok writer -> writer_ok out.2).
Proof.
  cbv zeta. unfold _process_har.
  destruct (process_bodies_balanced vocab fallbacks bodies
              ({| candidates := 0; written := 0; deduped := 0 |}, writer))
    as (k & H1 & H2 & H3 & H4 & H5 & H6 & H7).
  cbn [fst snd candidates written deduped] in *.
  split; [lia|].
  split; [exists k; repeat split; lia|].
  split.
  { intros Hclean. rewrite (io_failures_none _ _ Hclean) in H3. lia. }
  split; [|exact H7].
  intros Hn. destruct (H6 Hn) as [_ E]. lia.
Qed.

End ProcessHarProperties.

(** X26: a candidate whose [write] raises is counted in [candidates]
    only.  Three candidates in one body: the first is written, the second
    has the same key and is deduplicated, and [writerow] raises on the
    third: the counters are [(3, 1, 1)], the file has one row, and the
    key of the third candidate is in [seen]. *)
Example _process_har_write_raises :
  let out := _process_har str_of_object_blank
               (fun k => (negb (Nat.eqb k 2), true))
               [("http://example.com/api",
                 PList [sample_candidate; sample_candidate;
                        PDict [("address", PStr "9 Elm St");
                               ("beds", PInt 2); ("price", PInt 100000)]])]
               new_writer sample_vocab sample_fallbacks in
  out.1 = {| candidates := 3; written := 1; deduped := 1 |} /\
  length (written_rows out.2) = 1 /\
  length (List.filter fails
            (raw_listings
               [("http://example.com/api",
                 PList [sample_candidate; sample_candidate;
                        PDict [("address", PStr "9 Elm St");
                               ("beds", PInt 2); ("price", PInt 100000)]])]))
  = 0 /\
  bool_decide (("9 Elm St", Some "FallbackVille", Some "CA", "",
                "http://example.com/api") ∈ seen out.2) = true.
Proof. vm_compute. repeat split. Qed.

(** ** Value coercion *)

Lemma str_filter_app (p : ascii -> bool) (a b : string) :
  str_filter p (a ++ b) = str_filter p a ++ str_filter p b.
Proof.
  induction a as [|c a IH]; [reflexivity|].
  simpl. destruct (p c); simpl; now rewrite IH.
Qed.

Lemma str_filter_filter (p q : ascii -> bool) (s : string) :
  (forall c, p c = true -> q c = true) ->
  str_filter p (str_filter q s) = str_filter p s.
Proof.
  intros Hpq. induction s as [|c s IH]; [reflexivity|].
  simpl. destruct (q c) eqn:Hq; simpl.
  - now rewrite IH.
  - destruct (p c) eqn:Hp; [|exact IH].
    rewrite (Hpq c Hp) in Hq. discriminate.
Qed.

Lemma is_digit_numeric (c : ascii) :
  is_digit c = true ->
  is_numeric_char c = true /\ negb (Ascii.eqb c ",") = true.
Proof. destruct c as [[] [] [] [] [] [] [] []]; vm_compute; auto. Qed.

Lemma clean_number_digits (s : string) :
  str_filter is_digit (clean_number s) = str_filter is_digit s.
Proof.
  unfold clean_number, remove_char.
  rewrite !str_filter_filter; [reflexivity | |]; intros c Hc;
    now apply is_digit_numeric.
Qed.

Lemma scan_digits_no_digit (acc : Z) (n : nat) (s : string) :
  str_filter is_digit s = "" -> scan_digits acc n s = (acc, n, s).
Proof.
  destruct s as [|c s]; [reflexivity|]. simpl.
  destruct (is_digit c); [discriminate | reflexivity].
Qed.

Lemma py_float_of_str_no_digit (s : string) :
  str_filter is_digit s = "" -> py_float_of_str s = Raise ValueError.
Proof.
  intros H. unfold py_float_of_str.
  assert (str_filter is_digit (scan_sign s).2 = "") as H1.
  { destruct s as [|c s]; [reflexivity|]. simpl in *.
    destruct (is_digit c) eqn:Hc; [discriminate|].
    destruct (code c =? 45)%N; simpl; [exact H | now rewrite Hc]. }
  destruct (scan_sign s) as [neg s1]. simpl in H1.
  rewrite (scan_digits_no_digit 0 0 s1 H1).
  destruct s1 as [|c s3]; [reflexivity|].
  destruct (code c =? 46)%N; [|reflexivity].
  assert (str_filter is_digit s3 = "") as H3.
  { simpl in H1. now destruct (is_digit c). }
  rewrite (scan_digits_no_digit 0 0 s3 H3). simpl.
  now rewrite andb_false_r.
Qed.

(** X5: text without any digit is not a number.  For every string with no
    character [0-9] (the empty string, ["N/A"], ["--"], ["TBD."]),
    [parse_float] and [parse_int] return [None]: they neither raise nor
    default to zero. *)
Theorem parse_float_no_digit (s : string) :
  has_digit s = false ->
  parse_float (PStr s) = Ok None /\ parse_int (PStr s) = Ok None.
Proof.
  unfold has_digit. intros H. apply negb_false_iff in H.
  assert (str_filter is_digit s = "") as H0
    by (destruct (str_filter is_digit s); [reflexivity | discriminate]).
  assert (parse_float (PStr s) = Ok None) as E.
  { unfold parse_float.
    rewrite py_float_of_str_no_digit; [reflexivity|].
    now rewrite clean_number_digits. }
  split; [exact E|]. unfold parse_int. now rewrite E.
Qed.

Lemma clean_number_noise (a b : string) (c : ascii) :
  is_numeric_char c = false ->
  clean_number (a ++ String c b) = clean_number (a ++ b).
Proof.
  intros Hc. unfold clean_number, remove_char.
  rewrite !str_filter_app. simpl.
  destruct (negb (Ascii.eqb c ",")); simpl; [|reflexivity].
  now rewrite Hc.
Qed.

(** X6: [parse_float] reads through noise.  A character outside
    [0-9 . -] (a thousands separator, a currency sign, a letter of a unit,
    a space) can be inserted anywhere in the text without changing the
    result of [parse_float] or [parse_int]. *)
Theorem parse_float_ignores_noise (a b : string) (c : ascii) :
  is_numeric_char c = false ->
  parse_float (PStr (a ++ String c b)) = parse_float (PStr (a ++ b)) /\
  parse_int (PStr (a ++ String c b)) = parse_int (PStr (a ++ b)).
Proof.
  intros Hc.
  assert (parse_float (PStr (a ++ String c b)) = parse_float (PStr (a ++ b)))
    as E by (unfold parse_float; now rewrite clean_number_noise).
  split; [exact E|]. unfold parse_int. now rewrite E.
Qed.

Lemma py_float_of_str_raise (s : string) (e : exn) :
  py_float_of_str s = Raise e -> e = ValueError.
Proof.
  unfold py_float_of_str.
  destruct (scan_sign s) as [neg s1].
  destruct (scan_digits 0 0 s1) as [[ip ni] s2].
  destruct s2 as [|c s3].
  - destruct (ni =? 0)%nat; congruence.
  - destruct (code c =? 46)%N; [|congruence].
    destruct (scan_digits ip 0 s3) as [[m nf] s4].
    destruct (is_empty s4 && negb (ni + nf =? 0)%nat); congruence.
Qed.

Lemma parse_float_raise_inv (val : pyval) (e : exn) :
  parse_float val = Raise e ->
  e = OverflowError /\
  exists z, val = PInt z /\ py_float_of_int z = Raise OverflowError.
Proof.
  destruct val as [|[]|z|f|s|l|d]; simpl; try discriminate.
  - unfold py_float_of_int, overflow_check.
    intros H. assert (e = OverflowError) as ->.
    { destruct (float_of_Z z); simpl in H; congruence. }
    split; [reflexivity|]. exists z. split; [reflexivity|].
    destruct (float_of_Z z); simpl in *; congruence.
  - destruct (py_float_of_str (clean_number s)) as [f|e'] eqn:E;
      [discriminate|].
    apply py_float_of_str_raise in E as ->. discriminate.
Qed.

(** X7: [parse_float] raises in one case only.  The only exception it lets
    out is [OverflowError], and only for an [int] too large for a double;
    in particular it returns for every string (text that is not a number
    gives [None]). *)
Theorem parse_float_raises_only_on_big_int (val : pyval) (e : exn)
    (s : string) :
  (parse_float val = Raise e ->
   e = OverflowError /\
   exists z, val = PInt z /\ py_float_of_int z = Raise OverflowError) /\
  (exists r, parse_float (PStr s) = Ok r).
Proof.
  split; [apply parse_float_raise_inv|].
  destruct (parse_float (PStr s)) as [r|e'] eqn:E; [eauto|].
  destruct (parse_float_raise_inv _ _ E) as (_ & z & Hs & _). discriminate.
Qed.

(** *** Rounding never yields NaN *)

Lemma shr_1_nonneg (mrs : shr_record) :
  (0 <= shr_m mrs)%Z -> (0 <= shr_m (shr_1 mrs))%Z.
Proof.
  destruct mrs as [m r s]. destruct m as [|[p|p|]|[p|p|]]; simpl; lia.
Qed.

Lemma iter_pos_invariant {A : Type} (P : A -> Prop) (f : A -> A) :
  (forall x, P x -> P (f x)) ->
  forall (n : positive) (x : A), P x -> P (SpecFloat.iter_pos f n x).
Proof.
  intros Hf. induction n as [n IH|n IH|]; intros x Hx; simpl; auto.
Qed.

Lemma shr_nonneg (mrs : shr_record) (e n : Z) :
  (0 <= shr_m mrs)%Z -> (0 <= shr_m (shr mrs e n).1)%Z.
Proof.
  intros H. unfold shr. destruct n; simpl; try exact H.
  apply (iter_pos_invariant (fun r => (0 <= shr_m r)%Z)); auto.
  apply shr_1_nonneg.
Qed.

Lemma shr_record_of_loc_m (m : Z) (l : location) :
  shr_m (shr_record_of_loc m l) = m.
Proof. destruct l as [|[]]; reflexivity. Qed.

Lemma round_nearest_even_nonneg (m : Z) (l : location) :
  (0 <= m)%Z -> (0 <= round_nearest_even m l)%Z.
Proof.
  intros H. destruct l as [|[]]; simpl; try lia.
  destruct (Z.even m); lia.
Qed.

Lemma binary_round_aux_not_nan (s : bool) (m e : Z) (l : location) :
  (0 <= m)%Z -> binary_round_aux prec emax s m e l <> S754_nan.
Proof.
  intros Hm. unfold binary_round_aux, shr_fexp.
  pose proof (shr_nonneg (shr_record_of_loc m l) e
    (fexp prec emax (Zdigits2 m + e) - e)) as H1.
  rewrite shr_record_of_loc_m in H1. specialize (H1 Hm).
  destruct (shr (shr_record_of_loc m l) e _) as [mrs' e']. simpl in H1.
  set (m1 := round_nearest_even (shr_m mrs') (loc_of_shr_record mrs')).
  assert (0 <= m1)%Z as Hm1 by now apply round_nearest_even_nonneg.
  pose proof (shr_nonneg (shr_record_of_loc m1 loc_Exact) e'
    (fexp prec emax (Zdigits2 m1 + e') - e')) as H2.
  rewrite shr_record_of_loc_m in H2. specialize (H2 Hm1).
  destruct (shr (shr_record_of_loc m1 loc_Exact) e' _) as [mrs'' e''].
  simpl in H2. destruct (shr_m mrs'') as [|p|p]; [discriminate| |lia].
  destruct (e'' <=? emax - prec)%Z; discriminate.
Qed.

Lemma float_of_Z_not_nan (z : Z) : float_of_Z z <> S754_nan.
Proof.
  unfold float_of_Z, binary_normalize.
  destruct z as [|m|m]; [discriminate| |]; unfold binary_round;
    destruct (shl_align m 0 _) as [mz ez];
    apply binary_round_aux_not_nan; lia.
Qed.

Lemma float_quot_not_nan (neg : bool) (p q : positive) :
  float_quot neg p q <> S754_nan.
Proof.
  unfold float_quot, float_div, SFdiv, SFdiv_core_binary.
  set (s := (0 - 0 - _)%Z).
  set (m' := match s with
             | Z0 => Zpos p
             | Zpos _ => Z.shiftl (Zpos p) s
             | Zneg _ => 0%Z
             end).
  assert (0 <= m')%Z as Hm'.
  { subst m'. destruct s; try lia. apply Z.shiftl_nonneg. lia. }
  pose proof (Z_div_mod m' (Zpos q) eq_refl) as Hdiv.
  destruct (Z.div_eucl m' (Zpos q)) as [quo rem].
  apply binary_round_aux_not_nan. nia.
Qed.

Lemma py_float_of_str_not_nan (s : string) (f : float) :
  py_float_of_str s = Ok f -> f <> S754_nan.
Proof.
  assert (forall neg m k, float_of_decimal neg m k <> S754_nan) as H.
  { intros neg m k. unfold float_of_decimal.
    destruct m; try discriminate. apply float_quot_not_nan. }
  unfold py_float_of_str.
  destruct (scan_sign s) as [neg s1].
  destruct (scan_digits 0 0 s1) as [[ip ni] s2].
  destruct s2 as [|c s3].
  - destruct (ni =? 0)%nat; [discriminate|]. intros [= <-]. apply H.
  - destruct (code c =? 46)%N; [|discriminate].
    destruct (scan_digits ip 0 s3) as [[m nf] s4].
    destruct (is_empty s4 && negb (ni + nf =? 0)%nat); [|discriminate].
    intros [= <-]. apply H.
Qed.

Lemma parse_float_nan (val : pyval) :
  parse_float val = Ok (Some S754_nan) -> val = PFloat S754_nan.
Proof.
  destruct val as [|b|z|f|s|l|d]; simpl; try discriminate.
  - unfold py_float_of_int, overflow_check.
    pose proof (float_of_Z_not_nan (Z.b2z b)) as H.
    destruct (float_of_Z (Z.b2z b)); simpl; congruence.
  - unfold py_float_of_int, overflow_check.
    pose proof (float_of_Z_not_nan z) as H.
    destruct (float_of_Z z); simpl; congruence.
  - congruence.
  - destruct (py_float_of_str (clean_number s)) as [f|[]] eqn:E;
      try discriminate.
    intros [= ->]. now apply py_float_of_str_not_nan in E.
Qed.

(** X8: what [parse_int] lets out.  It raises [ValueError] for the float
    NaN and for nothing else: never for text, an [int], a boolean, [None]
    or a container; every other exception it raises is an
    [OverflowError]. *)
Theorem parse_int_raises (val : pyval) (e : exn) :
  parse_int val = Raise e ->
  e = OverflowError \/ (e = ValueError /\ val = PFloat S754_nan).
Proof.
  unfold parse_int. destruct (parse_float val) as [[f|]|e'] eqn:E; simpl.
  - destruct f as [s|s| |s m ex]; simpl; try discriminate.
    + intros [= <-]. now left.
    + intros [= <-]. right. split; [reflexivity|]. now apply parse_float_nan.
  - discriminate.
  - intros [= <-]. left.
    now destruct (parse_float_raise_inv val e' E).
Qed.

(** *** Integers below 2^53 survive the double *)

Lemma digits2_pos_size (m : positive) : digits2_pos m = Pos.size m.
Proof. induction m as [m IH|m IH|]; simpl; now rewrite ?IH. Qed.

Lemma digits2_pos_bound (m : positive) :
  (Zpos m < 2 ^ 53)%Z -> (Zpos (digits2_pos m) <= 53)%Z.
Proof.
  intros H. rewrite digits2_pos_size.
  pose proof (Pos.size_le m) as Hle.
  destruct (Z_le_gt_dec (Zpos (Pos.size m)) 53) as [|Hgt]; [assumption|].
  exfalso.
  assert (2 ^ 54 <= 2 ^ Zpos (Pos.size m))%Z as Hp
    by (apply Z.pow_le_mono_r; lia).
  assert (Zpos (2 ^ Pos.size m) <= Zpos m~0)%Z as Hle' by exact Hle.
  rewrite Pos2Z.inj_pow in Hle'.
  change (2 ^ 54)%Z with (2 * 2 ^ 53)%Z in Hp. lia.
Qed.

Lemma iter_xO_value (m d : positive) :
  Zpos (Pos.iter xO m d) = (Zpos m * 2 ^ Zpos d)%Z.
Proof.
  induction d as [|d IH] using Pos.peano_ind.
  - simpl. lia.
  - rewrite Pos.iter_succ, Pos2Z.inj_succ, Z.pow_succ_r by lia.
    rewrite Pos2Z.inj_xO, IH. lia.
Qed.

Lemma iter_xO_digits (m d : positive) :
  Zpos (digits2_pos (Pos.iter xO m d)) = (Zpos (digits2_pos m) + Zpos d)%Z.
Proof.
  induction d as [|d IH] using Pos.peano_ind.
  - simpl. lia.
  - rewrite Pos.iter_succ. simpl digits2_pos.
    rewrite Pos2Z.inj_succ, IH. lia.
Qed.

(** A 53-bit mantissa with an exponent in range is already rounded. *)
Lemma binary_round_aux_exact (s : bool) (mz : positive) (ez : Z) :
  Zpos (digits2_pos mz) = 53%Z -> (-1074 <= ez <= 971)%Z ->
  binary_round_aux prec emax s (Zpos mz) ez loc_Exact = S754_finite s mz ez.
Proof.
  intros Hd He. unfold binary_round_aux, shr_fexp.
  assert (fexp prec emax (Zdigits2 (Zpos mz) + ez) - ez = 0)%Z as E.
  { simpl Zdigits2. rewrite Hd. unfold fexp, emin, prec, emax. lia. }
  rewrite E.
  cbn [shr shr_record_of_loc fst snd shr_m loc_of_shr_record
       round_nearest_even].
  rewrite E. cbn [shr shr_m].
  assert ((ez <=? emax - prec)%Z = true) as ->
    by (apply Z.leb_le; unfold emax, prec; lia).
  reflexivity.
Qed.

Lemma binary_round_small (s : bool) (m : positive) :
  (Zpos m < 2 ^ 53)%Z ->
  exists mz ez,
    binary_round prec emax s m 0 = S754_finite s mz ez /\
    (ez <= 0)%Z /\ Zpos mz = (Zpos m * 2 ^ (- ez))%Z.
Proof.
  intros Hm. pose proof (digits2_pos_bound m Hm) as Hd.
  assert (0 < Zpos (digits2_pos m))%Z as Hpos by lia.
  unfold binary_round.
  assert (fexp prec emax (Zpos (digits2_pos m) + 0)
          = Zpos (digits2_pos m) - 53)%Z as E
    by (unfold fexp, emin, prec, emax; lia).
  rewrite E. unfold shl_align.
  destruct (Zpos (digits2_pos m) - 53 - 0)%Z as [|d|d] eqn:Ed; [|lia|].
  - exists m, 0%Z. split; [|split; [lia | simpl; lia]].
    apply binary_round_aux_exact; lia.
  - exists (Pos.iter xO m d), (Zpos (digits2_pos m) - 53)%Z.
    split; [|split; [lia|]].
    + apply binary_round_aux_exact; [rewrite iter_xO_digits|]; lia.
    + rewrite iter_xO_value. f_equal. f_equal. lia.
Qed.

Lemma int_of_small_float (s : bool) (m mz : positive) (ez : Z) :
  (ez <= 0)%Z -> Zpos mz = (Zpos m * 2 ^ (- ez))%Z ->
  py_int_of_float (S754_finite s mz ez)
  = Ok (if s then Zneg m else Zpos m).
Proof.
  intros He Hmz. unfold py_int_of_float. f_equal.
  assert (Z.shiftl (Zpos mz) ez = Zpos m) as ->.
  { rewrite Hmz. replace ez with (- (- ez))%Z at 2 by lia.
    rewrite <- Z.shiftr_opp_r, Z.opp_involutive, Z.shiftr_div_pow2 by lia.
    apply Z.div_mul. apply Z.pow_nonzero; lia. }
  now destruct s.
Qed.

(** X9: an integer of magnitude below 2^53 passes through the numeric
    coercion unchanged: [parse_int] converts it to a double and back and
    returns the same integer. *)
Theorem parse_int_small_int (z : Z) :
  (Z.abs z < 2 ^ 53)%Z -> parse_int (PInt z) = Ok (Some z).
Proof.
  intros Hz. unfold parse_int, parse_float, py_float_of_int, float_of_Z,
    binary_normalize.
  destruct z as [|m|m].
  - reflexivity.
  - destruct (binary_round_small false m) as (mz & ez & -> & He & Hmz);
      [exact Hz|].
    cbn [overflow_check bind].
    now rewrite (int_of_small_float false m mz ez He Hmz).
  - destruct (binary_round_small true m) as (mz & ez & -> & He & Hmz);
      [exact Hz|].
    cbn [overflow_check bind].
    now rewrite (int_of_small_float true m mz ez He Hmz).
Qed.

(** ** Soundness and completeness of the key search *)

Lemma entries_dict_cons (k : string) (v : pyval) (d : list (string * pyval)) :
  entries (PDict ((k, v) :: d)) = (k, v) :: (entries v ++ entries (PDict d))%list.
Proof. reflexivity. Qed.

Lemma entries_list_cons (item : pyval) (l : list pyval) :
  entries (PList (item :: l)) = (entries item ++ entries (PList l))%list.
Proof. reflexivity. Qed.

(** X10: the search is sound.  Whatever [_search] returns other than
    [None] is the value bound, somewhere in the tree, to a key that
    satisfies the predicate: it never returns a value from under a
    non-matching key, and on a scalar or a string it returns [None]. *)
Theorem _search_sound (obj : pyval) (p : string -> bool) :
  _search obj p <> PNone ->
  exists k, (k, _search obj p) ∈ entries obj /\ p k = true.
Proof.
  induction obj as [| | | | |l IH|d IH] using pyval_nested_ind;
    try (intros H; now destruct H).
  - induction IH as [|item l Hitem _ IHl]; [intros H; now destruct H|].
    rewrite _search_list_cons, entries_list_cons. intros H.
    destruct (_search item p) eqn:E;
      try (destruct Hitem as (k & Hk & Hp); [discriminate|];
           exists k; split; [apply elem_of_app; now left | exact Hp]).
    destruct (IHl H) as (k & Hk & Hp).
    exists k. split; [apply elem_of_app; now right | exact Hp].
  - induction IH as [|[k v] d Hv _ IHd]; [intros H; now destruct H|].
    simpl in Hv. rewrite _search_dict_cons, entries_dict_cons. intros H.
    destruct (p k) eqn:Hpk.
    { exists k. split; [left | exact Hpk]. }
    destruct (_search v p) eqn:E;
      try (destruct Hv as (k' & Hk' & Hp'); [discriminate|];
           exists k'; split;
           [right; apply elem_of_app; now left | exact Hp']).
    destruct (IHd H) as (k' & Hk' & Hp').
    exists k'. split; [right; apply elem_of_app; now right | exact Hp'].
Qed.

(** X11: the search is complete on trees without null matches.  When some
    key of the tree satisfies the predicate and no key that satisfies it
    is bound to [None], [_search] returns a value, not [None]. *)
Theorem _search_complete (obj : pyval) (p : string -> bool) :
  (exists k, k ∈ all_keys obj /\ p k = true) ->
  (forall k v, (k, v) ∈ entries obj -> p k = true -> v <> PNone) ->
  _search obj p <> PNone.
Proof.
  induction obj as [| | | | |l IH|d IH] using pyval_nested_ind;
    try (intros (k & Hk & _); simpl in Hk; now apply elem_of_nil in Hk).
  - induction IH as [|item l Hitem _ IHl];
      [intros (k & Hk & _); simpl in Hk; now apply elem_of_nil in Hk|].
    rewrite _search_list_cons, all_keys_list_cons, entries_list_cons.
    intros (k & Hk & Hp) Hnn.
    destruct (_search item p) eqn:E; try discriminate.
    apply IHl.
    + apply elem_of_app in Hk as [Hk|Hk]; [|now exists k].
      exfalso. apply Hitem; [now exists k | | reflexivity].
      intros k' v' Hin. apply Hnn, elem_of_app. now left.
    + intros k' v' Hin. apply Hnn, elem_of_app. now right.
  - induction IH as [|[k0 v0] d Hv _ IHd];
      [intros (k & Hk & _); simpl in Hk; now apply elem_of_nil in Hk|].
    simpl in Hv.
    rewrite _search_dict_cons, all_keys_dict_cons, entries_dict_cons.
    intros (k & Hk & Hp) Hnn.
    destruct (p k0) eqn:Hp0.
    { apply (Hnn k0 v0); [left | exact Hp0]. }
    destruct (_search v0 p) eqn:E; try discriminate.
    apply IHd.
    + apply elem_of_cons in Hk as [->|Hk]; [congruence|].
      apply elem_of_app in Hk as [Hk|Hk]; [|now exists k].
      exfalso. apply Hv; [now exists k | | reflexivity].
      intros k' v' Hin. apply Hnn. right. apply elem_of_app. now left.
    + intros k' v' Hin. apply Hnn. right. apply elem_of_app. now right.
Qed.

(** ** Extractors on absent fields *)

Lemma parse_lot_sizes_inv (d : pyval) (sqft_out : option Z)
    (acres_out : option float) :
  parse_lot_sizes d = Ok (sqft_out, acres_out) ->
  (sqft_out = None ↔ acres_out = None).
Proof.
  unfold parse_lot_sizes.
  destruct (parse_int (_search d lot_sqft_pred)) as [[s|]|]; cbn [bind];
    [| |discriminate];
    (destruct (parse_float (_search d lot_acres_pred)) as [[a|]|];
      cbn [bind]; [| |discriminate]).
  - intros [= <- <-]. split; discriminate.
  - destruct (py_int_truediv s 43560) as [q|]; cbn [bind]; [|discriminate].
    intros [= <- <-]. split; discriminate.
  - destruct (py_float_mul_int a 43560) as [prod|]; cbn [bind];
      [|discriminate].
    destruct (py_int_of_float prod) as [z|]; cbn [bind]; [|discriminate].
    intros [= <- <-]. split; discriminate.
  - intros [= <- <-]. split; reflexivity.
Qed.

(** X12: lot size is all or nothing.  Whenever [parse_lot_sizes] returns,
    the square feet and the acres are both present or both absent: one
    found value always yields the other. *)
Theorem parse_lot_sizes_both_or_none (d : pyval) (sqft_out : option Z)
    (acres_out : option float) :
  parse_lot_sizes d = Ok (sqft_out, acres_out) ->
  (sqft_out = None ↔ acres_out = None).
Proof. apply parse_lot_sizes_inv. Qed.

Section AbsentFields.

Variable str_of_object : pyval -> string.

Lemma unrecognized_search (d : pyval) (p : string -> bool) :
  unrecognized d = true ->
  (forall k, recognized k = false -> p k = false) ->
  _search d p = PNone.
Proof.
  unfold unrecognized. rewrite forallb_forall. intros H Hp.
  apply _search_no_key, Forall_forall. intros k Hk.
  apply Hp, negb_true_iff, H. now apply list_elem_of_In.
Qed.

(** X13: a candidate without any recognized key gives an empty row.  When
    no key at any depth is read by an extractor, [to_listing_row] returns
    a row whose numeric fields are all [None] (never zero), whose text
    fields are empty, whose city and state are the fallbacks, and whose
    amenities are those matched by the strings of the candidate. *)
Theorem to_listing_row_unrecognized (d : pyval) (url : string)
    (vocab : vocabulary) (fallbacks : gmap string (option string)) :
  unrecognized d = true ->
  to_listing_row str_of_object d url vocab fallbacks
  = Ok {| source_url := url; mls_id := ""; address := "";
          city := default (Some "") (fallbacks !! "city");
          state := default (Some "") (fallbacks !! "state");
          zip := ""; beds := None; baths := None; rooms_total := None;
          sqft := None; year_built := None; lot_size_sqft := None;
          lot_size_acres := None; property_type := ""; price := None;
          amenities := normalize_amenities (_extract d) vocab None;
          description := "" |}.
Proof.
  intros H.
  assert (forall p, (forall k, recognized k = false -> p k = false) ->
                    _search d p = PNone) as Hs
    by (intros p; now apply unrecognized_search).
  assert (forall keys, (forall k, recognized k = false ->
                                  keys_pred keys k = false) ->
                       _search_keys d keys = PNone) as Hk
    by (intros keys Hkeys; rewrite _search_keys_pred; now apply Hs).
  unfold recognized in Hs, Hk.
  unfold to_listing_row, parse_description, parse_property_type,
    parse_lot_sizes, parse_address_block, parse_bedrooms, parse_bathrooms,
    parse_rooms_total, parse_sqft, parse_year_built, parse_price.
  rewrite (Hs description_pred), (Hs property_type_pred),
    (Hs lot_sqft_pred), (Hs lot_acres_pred), (Hs rooms_total_pred),
    (Hs sqft_pred), (Hs price_pred), (Hs mls_id_pred),
    (Hk ["address"]), (Hk ["beds"; "bedrooms"; "bed"]),
    (Hk ["baths"; "bathrooms"; "bath"]),
    (Hk ["yearbuilt"; "built"; "constructionyear"]);
    try (intros k Hr; repeat (apply orb_false_iff in Hr as [Hr ?]);
         assumption).
  cbn [address_parts]. unfold top_level. cbn [truthy is_empty negb].
  rewrite (Hk city_keys), (Hk state_keys), (Hk zip_keys);
    try (intros k Hr; repeat (apply orb_false_iff in Hr as [Hr ?]);
         assumption).
  reflexivity.
Qed.

End AbsentFields.

(** ** Token harvesting *)

Lemma lstrip_has (c : ascii) (s : string) :
  str_has c (lstrip s) = true -> str_has c s = true.
Proof.
  induction s as [|x s IH]; [discriminate|]. simpl.
  destruct (is_space x); [|exact (fun H => H)].
  intros H. rewrite (IH H). apply orb_true_r.
Qed.

Lemma rstrip_has (c : ascii) (s : string) :
  str_has c (rstrip s) = true -> str_has c s = true.
Proof.
  induction s as [|x s IH]; [discriminate|]. simpl.
  destruct (is_space x && is_empty (rstrip s)); [discriminate|].
  simpl. intros H. apply orb_true_iff in H as [H|H];
    [now rewrite H | rewrite (IH H); apply orb_true_r].
Qed.

Lemma rstrip_idem (s : string) : rstrip (rstrip s) = rstrip s.
Proof.
  induction s as [|x s IH]; [reflexivity|]. simpl.
  destruct (is_space x && is_empty (rstrip s)) eqn:E; [reflexivity|].
  simpl. now rewrite IH, E.
Qed.

Lemma lstrip_fixed (s : string) :
  match s with String x _ => is_space x = false | EmptyString => True end ->
  lstrip s = s.
Proof. destruct s as [|x s]; [reflexivity|]. simpl. now intros ->. Qed.

Lemma lstrip_head (s : string) :
  match lstrip s with
  | String x _ => is_space x = false
  | EmptyString => True
  end.
Proof.
  induction s as [|x s IH]; [exact I|]. simpl.
  destruct (is_space x) eqn:E; [exact IH | exact E].
Qed.

Lemma rstrip_head (s : string) :
  match s with String x _ => is_space x = false | EmptyString => True end ->
  match rstrip s with
  | String x _ => is_space x = false
  | EmptyString => True
  end.
Proof.
  destruct s as [|x s]; [auto|]. intros H. simpl. rewrite H. simpl. exact H.
Qed.

Lemma strip_idem (s : string) : strip (strip s) = strip s.
Proof.
  unfold strip.
  rewrite (lstrip_fixed (rstrip (lstrip s))); [apply rstrip_idem|].
  apply rstrip_head, lstrip_head.
Qed.

Lemma re_split_no_sep (s piece : string) (c : ascii) :
  piece ∈ re_split s -> is_sep c = true -> str_has c piece = false.
Proof.
  revert piece. induction s as [|x s IH]; intros piece Hin Hc.
  - apply list_elem_of_singleton in Hin as ->. reflexivity.
  - simpl in Hin. destruct (is_sep x) eqn:Hx.
    + apply elem_of_cons in Hin as [->|Hin]; [reflexivity | now apply IH].
    + destruct (re_split s) as [|h t] eqn:E.
      * apply list_elem_of_singleton in Hin as ->. simpl.
        destruct (Ascii.eqb_spec x c) as [->|]; [congruence | reflexivity].
      * apply elem_of_cons in Hin as [->|Hin].
        -- simpl. rewrite (IH h); [|left|exact Hc].
           destruct (Ascii.eqb_spec x c) as [->|]; [congruence | reflexivity].
        -- apply IH; [now right | exact Hc].
Qed.

Lemma split_tokens_clean (s t : string) :
  t ∈ split_tokens s ->
  is_empty t = false /\ strip t = t /\
  forall c, is_sep c = true -> str_has c t = false.
Proof.
  unfold split_tokens. intros H.
  apply list_elem_of_In, List.filter_In in H as [H Hne].
  apply in_map_iff in H as (piece & <- & Hp).
  split; [now apply negb_true_iff|]. split; [apply strip_idem|].
  intros c Hc. destruct (str_has c (strip piece)) eqn:E; [|reflexivity].
  unfold strip in E. apply rstrip_has, lstrip_has in E.
  rewrite (re_split_no_sep s piece c) in E; [discriminate| |exact Hc].
  now apply list_elem_of_In.
Qed.

Lemma _extract_dict_cons (k : string) (v : pyval) (d : list (string * pyval)) :
  _extract (PDict ((k, v) :: d)) = (_extract v ++ _extract (PDict d))%list.
Proof. simpl. now destruct (amenity_key k). Qed.

Lemma _extract_list_cons (item : pyval) (l : list pyval) :
  _extract (PList (item :: l)) = (_extract item ++ _extract (PList l))%list.
Proof. reflexivity. Qed.

Lemma strings_of_dict_cons (k : string) (v : pyval)
    (d : list (string * pyval)) :
  strings_of (PDict ((k, v) :: d))
  = (strings_of v ++ strings_of (PDict d))%list.
Proof. reflexivity. Qed.

Lemma strings_of_list_cons (item : pyval) (l : list pyval) :
  strings_of (PList (item :: l))
  = (strings_of item ++ strings_of (PList l))%list.
Proof. reflexivity. Qed.

Lemma _extract_strings (obj : pyval) :
  _extract obj = flat_map split_tokens (strings_of obj).
Proof.
  induction obj as [| | | | |l IH|d IH] using pyval_nested_ind;
    try reflexivity.
  - simpl. now rewrite List.app_nil_r.
  - induction IH as [|item l Hitem _ IHl]; [reflexivity|].
    now rewrite _extract_list_cons, strings_of_list_cons, flat_map_app,
      Hitem, IHl.
  - induction IH as [|[k v] d Hv _ IHd]; [reflexivity|]. simpl in Hv.
    now rewrite _extract_dict_cons, strings_of_dict_cons, flat_map_app,
      Hv, IHd.
Qed.

(** X14: the harvest is indiscriminate.  The raw tokens are exactly the
    pieces of every string value of the candidate, under any key and at
    any depth, in traversal order, followed by the pieces of the
    description when it is not empty. *)
Theorem collect_raw_amenities_all_strings (d : pyval)
    (description_text : string) :
  collect_raw_amenities d description_text
  = (flat_map split_tokens (strings_of d) ++
     (if is_empty description_text then []
      else split_tokens description_text))%list.
Proof.
  unfold collect_raw_amenities. rewrite _extract_strings.
  destruct (is_empty description_text); [now rewrite List.app_nil_r|].
  reflexivity.
Qed.

(** X15: harvested tokens are clean.  Every raw token is non-empty,
    carries no leading or trailing whitespace, and contains none of the
    separators [;], [,] and newline. *)
Theorem collect_raw_amenities_tokens_clean (d : pyval)
    (description_text t : string) :
  t ∈ collect_raw_amenities d description_text ->
  is_empty t = false /\ strip t = t /\
  forall c, is_sep c = true -> str_has c t = false.
Proof.
  unfold collect_raw_amenities. rewrite _extract_strings. intros H.
  assert (exists s, t ∈ split_tokens s) as [s Hs].
  { destruct (is_empty description_text).
    - apply list_elem_of_In, in_flat_map in H as (s & _ & H).
      exists s. now apply list_elem_of_In.
    - apply elem_of_app in H as [H|H]; [|now exists description_text].
      apply list_elem_of_In, in_flat_map in H as (s & _ & H).
      exists s. now apply list_elem_of_In. }
  exact (split_tokens_clean s t Hs).
Qed.

(** ** The amenity matcher *)

Lemma match_tokens_same (reverse : gmap string string)
    (tokens tokens' : list string) :
  (forall t, t ∈ tokens ↔ t ∈ tokens') ->
  match_tokens reverse tokens = match_tokens reverse tokens'.
Proof.
  intros H. apply set_eq. intros c. rewrite !elem_of_match_tokens.
  split; intros (t & Ht & Hr); exists t; split; auto; now apply H.
Qed.

(** X16: only the set of raw tokens matters.  Token lists with the same
    elements, in any order and with any repetition, give the same
    amenities; and adding tokens never removes a label. *)
Theorem normalize_amenities_token_set (tokens tokens' : list string)
    (vocab : vocabulary) (description : option string) :
  ((forall t, t ∈ tokens ↔ t ∈ tokens') ->
   normalize_amenities tokens vocab description
   = normalize_amenities tokens' vocab description) /\
  ((forall t, t ∈ tokens -> t ∈ tokens') ->
   forall label, label ∈ normalize_amenities tokens vocab description ->
                 label ∈ normalize_amenities tokens' vocab description).
Proof.
  split.
  - intros H. unfold normalize_amenities.
    now rewrite (match_tokens_same _ tokens tokens' H).
  - intros H label. rewrite !elem_of_normalize_amenities.
    intros [(t & Ht & Hr)|Hd]; [left; exists t; auto | now right].
Qed.

Lemma lookup_insert_syns (syns : list string) (canonical k : string)
    (m : gmap string string) :
  fold_left (fun (r : gmap string string) (syn : string) =>
               <[_sanitize syn := canonical]> r) syns m !! k
  = if decide (k ∈ List.map _sanitize syns) then Some canonical else m !! k.
Proof.
  revert m. induction syns as [|syn syns IH]; intros m;
    cbn [fold_left List.map].
  - destruct (decide (k ∈ [])) as [H|H];
      [now apply elem_of_nil in H | reflexivity].
  - rewrite IH.
    destruct (decide (k ∈ List.map _sanitize syns)) as [Hin|Hnin].
    + rewrite decide_True by now right. reflexivity.
    + destruct (decide (k = _sanitize syn)) as [->|Hne].
      * rewrite decide_True by left. now rewrite lookup_insert_eq.
      * rewrite decide_False.
        -- now rewrite lookup_insert_ne by congruence.
        -- intros H. apply elem_of_cons in H as [|]; contradiction.
Qed.

Lemma lookup_add_entry (m : gmap string string)
    (entry : string * list string) (k : string) :
  add_entry m entry !! k
  = if decide (k ∈ terms entry) then Some (strip entry.1) else m !! k.
Proof.
  unfold add_entry, terms. cbv zeta. rewrite lookup_insert_syns.
  destruct (decide (k ∈ List.map _sanitize entry.2)) as [Hin|Hnin].
  - rewrite decide_True by now right. reflexivity.
  - destruct (decide (k = _sanitize (strip entry.1))) as [->|Hne].
    + rewrite decide_True by left. now rewrite lookup_insert_eq.
    + rewrite decide_False.
      * now rewrite lookup_insert_ne by congruence.
      * intros H. apply elem_of_cons in H as [|]; contradiction.
Qed.

(** The index maps a key to the label of the last entry that writes it. *)
Lemma lookup_reverse_vocab (before after : vocabulary)
    (entry : string * list string) (k : string) :
  k ∈ terms entry ->
  (forall later, later ∈ after -> k ∉ terms later) ->
  _reverse_vocab (before ++ entry :: after)%list !! k = Some (strip entry.1).
Proof.
  intros Hk Hafter. rewrite _reverse_vocab_fold, fold_left_app. simpl.
  generalize (fold_left add_entry before ∅). intros m.
  assert (add_entry m entry !! k = Some (strip entry.1)) as H
    by (rewrite lookup_add_entry; now rewrite decide_True).
  revert H. generalize (add_entry m entry). clear m.
  induction after as [|e after IH]; intros m Hm; [exact Hm|].
  simpl. apply IH.
  - intros later Hl. apply Hafter. now right.
  - rewrite lookup_add_entry, decide_False; [exact Hm|].
    apply Hafter. left.
Qed.

Lemma lookup_reverse_vocab_None (vocab : vocabulary) (k : string) :
  (forall entry, entry ∈ vocab -> k ∉ terms entry) ->
  _reverse_vocab vocab !! k = None.
Proof.
  rewrite _reverse_vocab_fold.
  assert (forall m : gmap string string, m !! k = None ->
            (forall entry, entry ∈ vocab -> k ∉ terms entry) ->
            fold_left add_entry vocab m !! k = None) as H.
  { induction vocab as [|e vocab IH]; intros m Hm Hv; [exact Hm|].
    simpl. apply IH.
    - rewrite lookup_add_entry, decide_False; [exact Hm | apply Hv; left].
    - intros entry He. apply Hv. now right. }
  apply H, lookup_empty.
Qed.

Lemma normalize_single_token (t label : string) (vocab : vocabulary) :
  _reverse_vocab vocab !! _sanitize t = Some label ->
  normalize_amenities [t] vocab None = [label].
Proof.
  intros H. unfold normalize_amenities, match_tokens. simpl. rewrite H.
  unfold py_sorted. rewrite (right_id_L ∅ (∪)), elements_singleton.
  reflexivity.
Qed.

(** X17: last entry wins.  A raw token whose sanitized form is the
    sanitized label or a sanitized synonym of a vocabulary entry is
    resolved to the stripped label of that entry, provided no later entry
    of the vocabulary writes the same sanitized form; an earlier entry
    with the same form is silently overridden. *)
Theorem normalize_amenities_last_entry_wins (before after : vocabulary)
    (entry : string * list string) (t : string) :
  _sanitize t ∈ terms entry ->
  (forall later, later ∈ after -> _sanitize t ∉ terms later) ->
  normalize_amenities [t] (before ++ entry :: after)%list None
  = [strip entry.1].
Proof.
  intros Ht Hafter. apply normalize_single_token.
  now apply lookup_reverse_vocab.
Qed.

(** X18: a raw token is matched exactly when the vocabulary knows its
    sanitized form.  If that form is the sanitized label or a sanitized
    synonym of some entry, the token alone yields exactly one label; if it
    is not, the token yields nothing. *)
Theorem normalize_amenities_token_known (vocab : vocabulary) (t : string) :
  ((exists entry, entry ∈ vocab /\ _sanitize t ∈ terms entry) ->
   exists label, normalize_amenities [t] vocab None = [label]) /\
  ((forall entry, entry ∈ vocab -> _sanitize t ∉ terms entry) ->
   normalize_amenities [t] vocab None = []).
Proof.
  split.
  - intros (entry & He & Ht).
    assert (exists label, _reverse_vocab vocab !! _sanitize t = Some label)
      as [label Hl].
    { rewrite _reverse_vocab_fold.
      assert (forall m : gmap string string,
        (is_Some (m !! _sanitize t) \/
         exists e, e ∈ vocab /\ _sanitize t ∈ terms e) ->
        is_Some (fold_left add_entry vocab m !! _sanitize t)) as H.
      { clear. induction vocab as [|e vocab IH]; intros m Hm; simpl.
        - destruct Hm as [Hm|(e & He & _)]; [exact Hm|].
          now apply elem_of_nil in He.
        - apply IH. rewrite lookup_add_entry.
          destruct (decide (_sanitize t ∈ terms e)) as [|Hn]; [left; eauto|].
          destruct Hm as [Hm|(e' & He' & Ht')]; [now left|].
          apply elem_of_cons in He' as [->|He']; [contradiction|].
          right. now exists e'. }
      destruct (H ∅) as [label Hl]; [right; now exists entry|].
      now exists label. }
    exists label. now apply normalize_single_token.
  - intros H. unfold normalize_amenities, match_tokens. simpl.
    now rewrite (lookup_reverse_vocab_None vocab _ H).
Qed.

Lemma last_char_cons (q : ascii) (s : string) :
  exists c, last_char (String q s) = Some c.
Proof.
  revert q. induction s as [|x s IH]; intros q; [now exists q|].
  destruct (IH x) as [c Hc]. exists c. exact Hc.
Qed.

Lemma last_or_cons (prev : option ascii) (p : ascii) (s : string) :
  last_or prev (String p s) = last_or (Some p) s.
Proof.
  unfold last_or. destruct s as [|q s]; [reflexivity|].
  destruct (last_char_cons q s) as [c Hc].
  change (last_char (String p (String q s))) with (last_char (String q s)).
  now rewrite Hc.
Qed.

Lemma literal_at_app (prev : option ascii) (syn post : string) :
  literal_at prev syn (syn ++ post) = Some (last_or prev syn, post).
Proof.
  revert prev. induction syn as [|p syn IH]; intros prev; [reflexivity|].
  simpl. rewrite Ascii.eqb_refl, IH. now rewrite last_or_cons.
Qed.

Lemma word_search_from_unfold (prev : option ascii) (syn text : string) :
  word_search_from prev syn text
  = word_match_at prev syn text
    || match text with
       | EmptyString => false
       | String c text' => word_search_from (Some c) syn text'
       end.
Proof. destruct text; reflexivity. Qed.

Lemma word_search_from_skip (prev : option ascii) (syn pre rest : string) :
  word_search_from (last_or prev pre) syn rest = true ->
  word_search_from prev syn (pre ++ rest) = true.
Proof.
  revert prev. induction pre as [|c pre IH]; intros prev H; [exact H|].
  rewrite last_or_cons in H.
  change (String c pre ++ rest) with (String c (pre ++ rest)).
  rewrite word_search_from_unfold, (IH _ H). apply orb_true_r.
Qed.

Lemma wordb_last_or (s : string) :
  wordb (last_or None s) = wordb (last_char s).
Proof. unfold last_or. now destruct (last_char s). Qed.

Lemma re_search_word_delimited (syn pre post : string) :
  wordb (first_char syn) = true -> wordb (last_char syn) = true ->
  wordb (last_char pre) = false -> wordb (first_char post) = false ->
  re_search_word syn (pre ++ syn ++ post) = true.
Proof.
  intros Hf Hl Hpre Hpost. unfold re_search_word.
  apply word_search_from_skip. rewrite word_search_from_unfold.
  apply orb_true_iff. left. unfold word_match_at.
  rewrite literal_at_app. unfold boundary.
  assert (first_char (syn ++ post) = first_char syn) as ->
    by (destruct syn; [discriminate | reflexivity]).
  assert (wordb (last_or (last_or None pre) syn) = true) as ->.
  { unfold last_or at 1. destruct (last_char syn); [exact Hl | discriminate]. }
  now rewrite wordb_last_or, Hpre, Hf, Hpost.
Qed.

Lemma sanitize_empty : _sanitize "" = "".
Proof. reflexivity. Qed.

(** X19: a whole-word occurrence in the description is found.  When the
    sanitized description contains an index entry that starts and ends
    with a word character, preceded by nothing or by a non-word character
    and followed by nothing or by a non-word character, the label of that
    entry is in the result. *)
Theorem description_scan_finds_whole_word (raw_tokens : list string)
    (vocab : vocabulary) (desc syn label pre post : string) :
  _reverse_vocab vocab !! syn = Some label ->
  wordb (first_char syn) = true -> wordb (last_char syn) = true ->
  _sanitize desc = pre ++ syn ++ post ->
  wordb (last_char pre) = false -> wordb (first_char post) = false ->
  label ∈ normalize_amenities raw_tokens vocab (Some desc).
Proof.
  intros Hr Hf Hl Hd Hpre Hpost. apply elem_of_normalize_amenities.
  right. exists desc, syn. split; [reflexivity|].
  split; [|split; [exact Hr|]].
  - destruct desc; [|reflexivity]. rewrite sanitize_empty in Hd.
    destruct pre, syn; discriminate.
  - rewrite Hd. now apply re_search_word_delimited.
Qed.

Lemma runs_first_word (u : string) :
  ((runs u).1 = "" \/ wordb (first_char (runs u).1) = true) /\
  Forall (fun w => wordb (first_char w) = true) (runs u).2.
Proof.
  induction u as [|c u [IHh IHt]]; [split; [now left | constructor]|].
  simpl. destruct (runs u) as [h t]. simpl in *.
  destruct (is_word c) eqn:Hc; simpl.
  - split; [now right | exact IHt].
  - split; [now left|]. destruct h as [|x h]; [exact IHt|].
    simpl. constructor; [|exact IHt].
    destruct IHh as [|H]; [discriminate | exact H].
Qed.

Lemma sanitize_first_word (s : string) :
  is_empty (_sanitize s) = false ->
  wordb (first_char (_sanitize s)) = true.
Proof.
  rewrite _sanitize_unwords. unfold word_runs.
  destruct (runs_first_word (py_lower s)) as [Hh Ht].
  destruct (runs (py_lower s)) as [h t]. simpl in *.
  destruct h as [|x h]; simpl.
  - destruct Ht as [|w ws Hw _]; [discriminate|].
    intros _. simpl. destruct w; [discriminate | exact Hw].
  - intros _. destruct Hh as [|H]; [discriminate | exact H].
Qed.

(** X20: an entry that sanitizes to nothing matches every description.
    When a label or synonym of the vocabulary consists only of punctuation
    (its sanitized form is the empty string), its label is added for every
    description whose sanitized text is not empty, whatever the text
    says. *)
Theorem description_scan_empty_entry (raw_tokens : list string)
    (vocab : vocabulary) (desc label : string) :
  _reverse_vocab vocab !! "" = Some label ->
  is_empty (_sanitize desc) = false ->
  label ∈ normalize_amenities raw_tokens vocab (Some desc).
Proof.
  intros Hr Hd. apply elem_of_normalize_amenities.
  right. exists desc, "". split; [reflexivity|].
  split; [|split; [exact Hr|]].
  - destruct desc; [discriminate | reflexivity].
  - pose proof (sanitize_first_word desc Hd) as Hw.
    unfold re_search_word. rewrite word_search_from_unfold.
    unfold word_match_at. simpl literal_at. unfold boundary. simpl wordb.
    now rewrite Hw.
Qed.

(** X21: nothing in, nothing out.  With an empty vocabulary no token and
    no description yields a label; and without raw tokens and without a
    (non-empty) description the result is empty for every vocabulary. *)
Theorem normalize_amenities_empty (raw_tokens : list string)
    (vocab : vocabulary) (description : option string) :
  normalize_amenities raw_tokens [] description = [] /\
  normalize_amenities [] vocab None = [] /\
  normalize_amenities [] vocab (Some "") = [].
Proof.
  split; [|split; reflexivity].
  assert (forall label,
            label ∉ normalize_amenities raw_tokens [] description) as H.
  { intros label Hl. apply elem_of_normalize_amenities in Hl.
    destruct Hl as [(t & _ & Hl)|(d & syn & _ & _ & Hl & _)];
      change (_reverse_vocab []) with (∅ : gmap string string) in Hl;
      now rewrite lookup_empty in Hl. }
  destruct (normalize_amenities raw_tokens [] description) as [|x l];
    [reflexivity|].
  destruct (H x). left.
Qed.

(** ** Idempotence of [_sanitize] *)

Lemma lower_char_idem (c : ascii) : lower_char (lower_char c) = lower_char c.
Proof. destruct c as [[] [] [] [] [] [] [] []]; reflexivity. Qed.

Lemma str_all_app (P : ascii -> bool) (a b : string) :
  str_all P (a ++ b) = str_all P a && str_all P b.
Proof.
  induction a as [|c a IH]; [reflexivity|]. simpl.
  now rewrite IH, andb_assoc.
Qed.

(** The runs of a lower-cased text are made of lower-case word
    characters. *)
Lemma runs_low_word (s : string) :
  str_all low_word (runs (py_lower s)).1 = true /\
  Forall (fun w => str_all low_word w = true) (runs (py_lower s)).2.
Proof.
  unfold py_lower.
  induction s as [|c s [IHh IHt]]; [split; [reflexivity | constructor]|].
  cbn [str_map runs]. destruct (runs (str_map lower_char s)) as [h t].
  cbn [fst snd] in *.
  destruct (is_word (lower_char c)) eqn:Hc; cbn [fst snd].
  - split; [|exact IHt]. cbn [str_all]. unfold low_word at 1.
    rewrite Hc, lower_char_idem, Ascii.eqb_refl. exact IHh.
  - split; [reflexivity|]. destruct (is_empty h); [exact IHt|].
    now constructor.
Qed.

Lemma append_empty_l (s : string) : "" ++ s = s.
Proof. reflexivity. Qed.

Lemma append_empty_r (s : string) : s ++ "" = s.
Proof.
  induction s as [|c s IH]; [reflexivity|].
  change (String c s ++ "") with (String c (s ++ "")). now rewrite IH.
Qed.

Lemma append_cons (c : ascii) (a b : string) :
  String c a ++ b = String c (a ++ b).
Proof. reflexivity. Qed.

Lemma runs_word_prefix (w rest : string) :
  str_all low_word w = true ->
  runs (w ++ rest) = (w ++ (runs rest).1, (runs rest).2).
Proof.
  induction w as [|c w IH]; intros H.
  - rewrite !append_empty_l. now destruct (runs rest).
  - cbn [str_all] in H. apply andb_true_iff in H as [Hc Hw].
    unfold low_word in Hc. apply andb_true_iff in Hc as [Hc _].
    rewrite !append_cons. cbn [runs]. rewrite (IH Hw), Hc. reflexivity.
Qed.

Lemma runs_spaced (ws : list string) :
  Forall (fun w => str_all low_word w = true) ws ->
  Forall (fun w => is_empty w = false) ws ->
  runs (spaced ws) = ("", ws).
Proof.
  induction 1 as [|w ws Hw _ IH]; intros Hne; [reflexivity|].
  apply Forall_cons in Hne as [Hw0 Hne].
  cbn [spaced runs]. rewrite (runs_word_prefix w _ Hw), (IH Hne).
  cbn [fst snd]. replace (is_word " ") with false by reflexivity.
  rewrite append_empty_r. now rewrite Hw0.
Qed.

Lemma word_runs_unwords (ws : list string) :
  Forall (fun w => str_all low_word w = true) ws ->
  Forall (fun w => is_empty w = false) ws ->
  word_runs (unwords ws) = ws.
Proof.
  intros Hlow Hne. destruct ws as [|w ws]; [reflexivity|].
  apply Forall_cons in Hlow as [Hw Hlow].
  apply Forall_cons in Hne as [Hw0 Hne].
  unfold word_runs, unwords.
  rewrite (runs_word_prefix w _ Hw), (runs_spaced ws Hlow Hne).
  cbn [fst snd]. rewrite is_empty_append, Hw0. cbn [andb].
  now rewrite append_empty_r.
Qed.

Lemma py_lower_fixed (s : string) :
  str_all (fun c => Ascii.eqb (lower_char c) c) s = true -> py_lower s = s.
Proof.
  unfold py_lower. induction s as [|c s IH]; [reflexivity|].
  simpl. intros H. apply andb_true_iff in H as [Hc Hs].
  apply Ascii.eqb_eq in Hc. now rewrite Hc, (IH Hs).
Qed.

Lemma str_all_weaken (P Q : ascii -> bool) (s : string) :
  (forall c, P c = true -> Q c = true) ->
  str_all P s = true -> str_all Q s = true.
Proof.
  intros HPQ. induction s as [|c s IH]; [reflexivity|]. simpl.
  intros H. apply andb_true_iff in H as [Hc Hs].
  now rewrite (HPQ c Hc), (IH Hs).
Qed.

Lemma unwords_lower_fixed (ws : list string) :
  Forall (fun w => str_all low_word w = true) ws ->
  str_all (fun c => Ascii.eqb (lower_char c) c) (unwords ws) = true.
Proof.
  assert (forall w, str_all low_word w = true ->
            str_all (fun c => Ascii.eqb (lower_char c) c) w = true) as Hw.
  { intros w. apply str_all_weaken. intros c Hc. unfold low_word in Hc.
    now apply andb_true_iff in Hc as [_ Hc]. }
  assert (forall l, Forall (fun w => str_all low_word w = true) l ->
            str_all (fun c => Ascii.eqb (lower_char c) c) (spaced l) = true)
    as Hs.
  { induction 1 as [|w l Hl _ IH]; [reflexivity|].
    cbn [spaced str_all]. rewrite str_all_app, (Hw w Hl), IH. reflexivity. }
  destruct 1 as [|w l Hl Hrest]; [reflexivity|].
  unfold unwords. now rewrite str_all_app, (Hw w Hl), (Hs l Hrest).
Qed.

(** X22: [_sanitize] is idempotent: sanitizing a sanitized text changes
    nothing, so index keys, tokens and descriptions are compared in a true
    normal form. *)
Theorem _sanitize_idempotent (s : string) :
  _sanitize (_sanitize s) = _sanitize s.
Proof.
  rewrite (_sanitize_unwords s).
  destruct (runs_low_word s) as [Hh Ht].
  pose proof (runs_nonempty (py_lower s)) as Hne.
  assert (Forall (fun w => str_all low_word w = true)
                 (word_runs (py_lower s)) /\
          Forall (fun w => is_empty w = false) (word_runs (py_lower s)))
    as [Hlow Hne'].
  { unfold word_runs. destruct (runs (py_lower s)) as [h t]. simpl in *.
    destruct (is_empty h) eqn:E; [now split|].
    split; now constructor. }
  rewrite _sanitize_unwords, (py_lower_fixed _ (unwords_lower_fixed _ Hlow)).
  now rewrite (word_runs_unwords _ Hlow Hne').
Qed.


(** ** Invariants of a returned row *)

Lemma normalize_amenities_labels (raw_tokens : list string)
    (vocab : vocabulary) (description : option string) (label : string) :
  label ∈ normalize_amenities raw_tokens vocab description ->
  exists key, key ∈ List.map fst vocab /\ label = strip key.
Proof.
  intros Hl. apply elem_of_normalize_amenities in Hl.
  assert (exists k, _reverse_vocab vocab !! k = Some label) as [k Hk].
  { destruct Hl as [(t & _ & H)|(d & syn & _ & _ & H & _)]; eauto. }
  apply _reverse_vocab_range in Hk as (entry & He & ->).
  exists entry.1. split; [|reflexivity].
  apply list_elem_of_In, in_map_iff. exists entry.
  split; [reflexivity | now apply list_elem_of_In].
Qed.

Section RowInvariants.

Variable str_of_object : pyval -> string.

(** X23: what every returned row satisfies.  Its [source_url] is the URL
    passed in; its amenities are sorted, free of duplicates and made of
    stripped vocabulary labels; its two lot sizes are both present or both
    absent; and its description is the text the amenities were mined
    from. *)
Theorem to_listing_row_invariants (d : pyval) (url : string)
    (vocab : vocabulary) (fallbacks : gmap string (option string))
    (row : ListingRow) :
  to_listing_row str_of_object d url vocab fallbacks = Ok row ->
  source_url row = url /\
  StronglySorted str_le (amenities row) /\ NoDup (amenities row) /\
  (forall label, label ∈ amenities row ->
     exists key, key ∈ List.map fst vocab /\ label = strip key) /\
  (lot_size_sqft row = None ↔ lot_size_acres row = None) /\
  description row = parse_description str_of_object d /\
  amenities row
  = normalize_amenities
      (collect_raw_amenities d (parse_description str_of_object d)) vocab
      (Some (parse_description str_of_object d)).
Proof.
  unfold to_listing_row.
  destruct (parse_lot_sizes d) as [[lot_sqft lot_acres]|] eqn:Elot;
    [cbn [bind] | discriminate].
  destruct (parse_address_block str_of_object d) as [[[addr c] s] z].
  run_extractor (parse_bedrooms d). run_extractor (parse_bathrooms d).
  run_extractor (parse_rooms_total d). run_extractor (parse_sqft d).
  run_extractor (parse_year_built d). run_extractor (parse_price d).
  intros [= <-]. cbn [source_url amenities lot_size_sqft lot_size_acres
                      description fst snd].
  split; [reflexivity|]. split; [apply py_sorted_sorted|].
  split; [apply py_sorted_NoDup|].
  split; [intros label; apply normalize_amenities_labels|].
  split; [exact (parse_lot_sizes_inv d _ _ Elot)|].
  split; reflexivity.
Qed.

End RowInvariants.

(** ** Instances *)

Lemma write_duplicate_skipped_witness :
  write (write new_writer (sample_row 350000) false true).2
    (sample_row 340000) true true
  = (Returned false, (write new_writer (sample_row 350000) false true).2).
Proof.
  apply (write_duplicate_skipped new_writer (sample_row 350000)
           (sample_row 340000) false true true true).
  reflexivity.
Defined.


Lemma _process_har_accounting_witness :
  (let out := _process_har str_of_object_blank (fun _ => (true, true))
                [("http://example.com/api",
                  PList [sample_candidate; sample_candidate])]
                new_writer sample_vocab sample_fallbacks in
   candidates out.1
   = written out.1 + deduped out.1
     + length (List.filter fails
                 (raw_listings [("http://example.com/api",
                                 PList [sample_candidate; sample_candidate])]))
   /\ length (written_rows out.2)
      = length (written_rows new_writer) + written out.1) /\
  writer_ok
    (_process_har str_of_object_blank (fun _ => (false, true))
       [("http://example.com/api", PList [sample_candidate; sample_candidate])]
       new_writer sample_vocab sample_fallbacks).2.
Proof.
  split.
  - apply (proj1 (proj2 (proj2 (_process_har_accounting str_of_object_blank
             (fun _ => (true, true))
             [("http://example.com/api",
               PList [sample_candidate; sample_candidate])]
             new_writer sample_vocab sample_fallbacks)))).
    intros k Hk. reflexivity.
  - apply (proj2 (proj2 (proj2 (proj2 (_process_har_accounting
             str_of_object_blank (fun _ => (false, true))
             [("http://example.com/api",
               PList [sample_candidate; sample_candidate])]
             new_writer sample_vocab sample_fallbacks))))).
    split; simpl; [constructor|]. intros r Hr. now apply elem_of_nil in Hr.
Defined.

Lemma write_raised_key_lost_witness :
  write (write new_writer (sample_row 350000) false true).2
    (sample_row 350000) true true
  = (Returned false, (write new_writer (sample_row 350000) false true).2).
Proof.
  refine (proj2 (proj2 (proj2 (proj2
            (write_raised_key_lost new_writer (sample_row 350000)
               true true true _))))).
  simpl. apply not_elem_of_empty.
Defined.

Lemma parse_float_no_digit_witness :
  parse_float (PStr "N/A") = Ok None /\ parse_int (PStr "N/A") = Ok None.
Proof. apply (parse_float_no_digit "N/A"). reflexivity. Defined.

Lemma parse_float_ignores_noise_witness :
  parse_float (PStr ("$1" ++ String "," "234.5 sqft"))
  = parse_float (PStr ("$1" ++ "234.5 sqft")).
Proof.
  apply (proj1 (parse_float_ignores_noise "$1" "234.5 sqft" "," eq_refl)).
Defined.

Lemma parse_float_raises_only_on_big_int_witness :
  OverflowError = OverflowError /\
  exists z, PInt (10 ^ 400) = PInt z /\
            py_float_of_int z = Raise OverflowError.
Proof.
  apply (proj1 (parse_float_raises_only_on_big_int (PInt (10 ^ 400))
                  OverflowError "")).
  vm_compute. reflexivity.
Defined.

Lemma parse_int_raises_witness :
  ValueError = OverflowError \/
  (ValueError = ValueError /\ PFloat S754_nan = PFloat S754_nan).
Proof. apply (parse_int_raises (PFloat S754_nan) ValueError). reflexivity. Defined.

Lemma parse_int_small_int_witness : parse_int (PInt 1999) = Ok (Some 1999%Z).
Proof. apply (parse_int_small_int 1999). reflexivity. Defined.

Lemma _search_sound_witness :
  exists k,
    (k, _search nested_beds (keys_pred beds_keys)) ∈ entries nested_beds /\
    keys_pred beds_keys k = true.
Proof.
  apply (_search_sound nested_beds (keys_pred beds_keys)).
  vm_compute. discriminate.
Defined.

Lemma _search_complete_witness :
  _search nested_beds (keys_pred beds_keys) <> PNone.
Proof.
  apply (_search_complete nested_beds (keys_pred beds_keys)).
  - exists "beds". split; [right; left | vm_compute; reflexivity].
  - intros k v Hin _. unfold nested_beds in Hin. simpl in Hin.
    repeat (apply elem_of_cons in Hin as [[= _ ->]|Hin]; [discriminate|]).
    now apply elem_of_nil in Hin.
Defined.

Lemma parse_lot_sizes_both_or_none_witness :
  Some 21780%Z = None ↔ Some half = None.
Proof.
  apply (parse_lot_sizes_both_or_none (PDict [("lot_acres", PStr "0.5")])).
  reflexivity.
Defined.

Lemma to_listing_row_unrecognized_witness :
  to_listing_row str_of_object_blank
    (PDict [("tags", PList [PStr "Garage; Pool"]); ("views", PInt 12)])
    "http://example.com/2" sample_vocab sample_fallbacks
  = Ok {| source_url := "http://example.com/2"; mls_id := ""; address := "";
          city := default (Some "") (sample_fallbacks !! "city");
          state := default (Some "") (sample_fallbacks !! "state");
          zip := ""; beds := None; baths := None; rooms_total := None;
          sqft := None; year_built := None; lot_size_sqft := None;
          lot_size_acres := None; property_type := ""; price := None;
          amenities :=
            normalize_amenities
              (_extract (PDict [("tags", PList [PStr "Garage; Pool"]);
                                ("views", PInt 12)]))
              sample_vocab None;
          description := "" |}.
Proof.
  apply (to_listing_row_unrecognized str_of_object_blank). reflexivity.
Defined.

Lemma collect_raw_amenities_tokens_clean_witness :
  is_empty "Pool" = false /\ strip "Pool" = "Pool" /\
  forall c, is_sep c = true -> str_has c "Pool" = false.
Proof.
  apply (collect_raw_amenities_tokens_clean
           (PDict [("tags", PList [PStr "Garage; Pool"])]) "" "Pool").
  vm_compute. right. left.
Defined.

Lemma normalize_amenities_token_set_witness :
  normalize_amenities ["pool"; "garage"] sample_vocab None
  = normalize_amenities ["garage"; "pool"; "garage"] sample_vocab None.
Proof.
  apply (proj1 (normalize_amenities_token_set ["pool"; "garage"]
                  ["garage"; "pool"; "garage"] sample_vocab None)).
  intros t. rewrite !elem_of_cons. intuition.
Defined.

Lemma normalize_amenities_last_entry_wins_witness :
  normalize_amenities ["GARAGE!"]
    ([("parking", ["garage"])] ++
     ("garage", ["two car garage"; "garage"]) :: [("misc", ["!!!"])])%list
    None
  = [strip ("garage", ["two car garage"; "garage"]).1].
Proof.
  apply (normalize_amenities_last_entry_wins [("parking", ["garage"])]
           [("misc", ["!!!"])] ("garage", ["two car garage"; "garage"])
           "GARAGE!").
  - vm_compute. left.
  - intros later Hl. apply list_elem_of_singleton in Hl as ->.
    vm_compute. intros H.
    repeat (apply elem_of_cons in H as [H|H]; [discriminate|]).
    now apply elem_of_nil in H.
Defined.

Lemma normalize_amenities_token_known_witness :
  exists label, normalize_amenities ["GARAGE!"] clashing_vocab None = [label].
Proof.
  apply (proj1 (normalize_amenities_token_known clashing_vocab "GARAGE!")).
  exists ("parking", ["garage"]). split; [left|]. vm_compute. right. left.
Defined.

Lemma description_scan_finds_whole_word_witness :
  "pool" ∈ normalize_amenities [] sample_vocab (Some "Heated pool, carpool lane.").
Proof.
  apply (description_scan_finds_whole_word [] sample_vocab
           "Heated pool, carpool lane." "pool" "pool" "heated "
           " carpool lane"); reflexivity.
Defined.

Lemma description_scan_empty_entry_witness :
  "misc" ∈ normalize_amenities [] clashing_vocab (Some "Quiet street.").
Proof.
  apply (description_scan_empty_entry [] clashing_vocab "Quiet street." "misc");
    reflexivity.
Defined.

Lemma to_listing_row_invariants_witness :
  exists row,
    to_listing_row str_of_object_blank sample_candidate "http://example.com/1"
      sample_vocab sample_fallbacks = Ok row /\
    source_url row = "http://example.com/1" /\
    (lot_size_sqft row = None ↔ lot_size_acres row = None).
Proof.
  eexists. split; [vm_compute; reflexivity|].
  destruct (to_listing_row_invariants str_of_object_blank sample_candidate
              "http://example.com/1" sample_vocab sample_fallbacks _
              ltac:(vm_compute; reflexivity)) as (H1 & _ & _ & _ & H5 & _).
  split; [exact H1 | exact H5].
Defined.
